(** * Logitech warehouse: a shallow embedding of [logitech.py]

    The development follows the source top-down: storage units (bins and
    trucks), packages, then the [WarehouseController] whose methods are
    written in a small state-and-exception monad.  Python integers are
    [Z]; Python lists are Rocq lists in the same order unless said
    otherwise; the objects that the source shares by reference (trucks,
    held both by the caller and by the loading stack) live in a heap. *)

From Stdlib Require Import ZArith List Lia Bool String Sorted.
From stdpp Require Import base option list gmap strings.
From Equations Require Import Equations.

Import ListNotations.
Local Open Scope string_scope.
Local Open Scope Z_scope.

(** ** Exceptions and results *)

(** The exceptions that the modelled code can raise.  [ValueError] is the
    one thrown by [occupy_space]; [IndexError] is Python's out-of-range
    list access; [DbError] stands for any fault of the sqlite connection;
    [RefError] is raised by the model when a truck reference is not
    allocated (no Python run gets there); [RecursionError] is raised by
    the interpreter when a call would exceed the recursion limit;
    [PyException] is the plain [Exception] of the singleton guard. *)
Inductive exn : Type :=
| ValueError (msg : string)
| IndexError
| DbError
| RefError
| RecursionError
| PyException (msg : string).

Inductive result (A : Type) : Type :=
| Ok (a : A)
| Raise (e : exn).
Arguments Ok {A} a.
Arguments Raise {A} e.

Definition is_ok {A} (r : result A) : bool :=
  match r with Ok _ => true | Raise _ => false end.

(** ** Storage units *)

(** [class StorageUnit]: a capacity and the space in use. *)
Record StorageUnit : Type := mkUnit {
  capacity : Z;
  used_space : Z
}.

(** [StorageUnit.__init__(capacity)]. *)
Definition new_unit (cap : Z) : StorageUnit :=
  {| capacity := cap; used_space := 0 |}.

(** [StorageUnit.occupy_space(amount)]: the check comes first, so a raise
    leaves the unit as it was. *)
Definition occupy_space (u : StorageUnit) (amount : Z) : result StorageUnit :=
  if used_space u + amount >? capacity u
  then Raise (ValueError "Not enough space")
  else Ok {| capacity := capacity u; used_space := used_space u + amount |}.

(** [StorageUnit.free_space(amount)]. *)
Definition free_space (u : StorageUnit) (amount : Z) : StorageUnit :=
  {| capacity := capacity u; used_space := Z.max 0 (used_space u - amount) |}.

(** [StorageUnit.remaining_space()]. *)
Definition remaining_space (u : StorageUnit) : Z :=
  capacity u - used_space u.

(** [class StorageBin(StorageUnit)]. *)
Record StorageBin : Type := mkBin {
  bin_unit : StorageUnit;
  bin_id : Z;
  location_code : string
}.

Definition new_bin (id cap : Z) (loc : string) : StorageBin :=
  {| bin_unit := new_unit cap; bin_id := id; location_code := loc |}.

Definition bin_capacity (b : StorageBin) : Z := capacity (bin_unit b).
Definition bin_used (b : StorageBin) : Z := used_space (bin_unit b).

(** [StorageBin.__lt__(other)]. *)
Definition bin_lt (b other : StorageBin) : bool :=
  bin_capacity b <? bin_capacity other.

(** [class Truck(StorageUnit)]. *)
Record Truck : Type := mkTruck {
  truck_unit : StorageUnit;
  truck_id : string
}.

Definition new_truck (id : string) (cap : Z) : Truck :=
  {| truck_unit := new_unit cap; truck_id := id |}.

(** [class Package]; never mutated by the source. *)
Record Package : Type := mkPackage {
  tracking_id : string;
  size : Z;
  destination : string
}.

(** ** Python list indexing *)

(** [l[i]] for a Python list: a negative index counts from the end, and
    anything outside [-len, len) raises [IndexError]. *)
Definition py_getitem {A} (l : list A) (i : Z) : result A :=
  let n := Z.of_nat (length l) in
  let j := if i <? 0 then n + i else i in
  if (0 <=? j) && (j <? n)
  then match l !! Z.to_nat j with
       | Some x => Ok x
       | None => Raise IndexError
       end
  else Raise IndexError.

(** ** Best fit by binary search *)

(** The [while low <= high] loop of [find_best_fit_bin]; the distance
    [high - low + 1] shrinks at every turn. *)
Equations? find_best_fit_loop (bins : list StorageBin) (pkg_size low high ans : Z)
  : result Z by wf (Z.to_nat (high - low + 1)) lt :=
  find_best_fit_loop bins pkg_size low high ans with Z_le_gt_dec low high => {
    | right _ := Ok ans;
    | left _ with py_getitem bins ((low + high) / 2) => {
        | Raise e := Raise e;
        | Ok b with (bin_capacity b >=? pkg_size) => {
            | true := find_best_fit_loop bins pkg_size low ((low + high) / 2 - 1) ((low + high) / 2);
            | false := find_best_fit_loop bins pkg_size ((low + high) / 2 + 1) high ans } } }.
Proof.
  all: pose proof (Z.div_mod (low + high) 2 ltac:(lia));
       pose proof (Z.mod_pos_bound (low + high) 2 ltac:(lia)); lia.
Qed.

(** [find_best_fit_bin(pkg_size)] over [self.bin_inventory]. *)
Definition find_best_fit_bin (bins : list StorageBin) (pkg_size : Z) : result Z :=
  find_best_fit_loop bins pkg_size 0 (Z.of_nat (length bins) - 1) (-1).

Definition demo_bins : list StorageBin :=
  [new_bin 1 10 "A1"; new_bin 2 20 "A2"; new_bin 3 50 "B1"; new_bin 4 100 "B2"].


(** ** Backtracking loader *)

(** [try_load(pkgs, i, space, chosen)] on a stack that is deep enough.
    It reads only [pkgs[i:]], so the recursion is written over that
    suffix.  [chosen] is the list that the source mutates in place: it
    is threaded through and returned next to the boolean; [append] adds
    at the end and [pop] removes the last element.  The source opens one
    Python frame per candidate; [try_load_frames] below follows it frame
    by frame under the interpreter's recursion limit, and agrees with
    this function whenever the frames suffice
    ([try_load_frames_enough]). *)
Fixpoint try_load_from (rest : list Package) (space : Z) (chosen : list Package)
  : bool * list Package :=
  match rest with
  | [] => ((Z.of_nat (length chosen) >? 0) && (space >=? 0), chosen)
  | pkg :: rest' =>
      if size pkg <=? space then
        let '(found, chosen1) :=
          try_load_from rest' (space - size pkg) (chosen ++ [pkg]) in
        if found then (true, chosen1)
        else try_load_from rest' space (removelast chosen1)
      else try_load_from rest' space chosen
  end.

(** The entry point with the index of the source, on a stack that is
    deep enough; past the end of the list [pkgs[i]] raises.  The source
    only ever starts at [0]. *)
Definition try_load (pkgs : list Package) (i : nat) (space : Z) (chosen : list Package)
  : result (bool * list Package) :=
  if (i <=? length pkgs)%nat
  then Ok (try_load_from (drop i pkgs) space chosen)
  else Raise IndexError.
Arguments try_load : simpl never.

(** [try_load(pkgs, i, space, chosen)] as the interpreter runs it:
    [frames] is the number of Python frames that can still be opened,
    and each call of [try_load] opens one; a call with none left raises
    [RecursionError].  The index is a Python integer and [pkgs[i]] is
    Python's indexing.  The list [chosen] is returned as the call
    leaves it, also when an exception goes through. *)
Fixpoint try_load_frames (frames : nat) (pkgs : list Package) (i : Z) (space : Z)
         (chosen : list Package) : result bool * list Package :=
  match frames with
  | O => (Raise RecursionError, chosen)
  | S frames' =>
      if i =? Z.of_nat (length pkgs)
      then (Ok ((Z.of_nat (length chosen) >? 0) && (space >=? 0)), chosen)
      else
        match py_getitem pkgs i with
        | Raise e => (Raise e, chosen)
        | Ok pkg =>
            if size pkg <=? space then
              match try_load_frames frames' pkgs (i + 1) (space - size pkg)
                                    (chosen ++ [pkg]) with
              | (Ok true, chosen1) => (Ok true, chosen1)
              | (Ok false, chosen1) =>
                  try_load_frames frames' pkgs (i + 1) space (removelast chosen1)
              | (Raise e, chosen1) => (Raise e, chosen1)
              end
            else try_load_frames frames' pkgs (i + 1) space chosen
        end
  end.

(** ** Controller state *)

(** A row of [shipment_logs]: tracking id, bin id or NULL, status.  The
    timestamp column comes from the wall clock and is left out. *)
Record LogRow : Type := mkRow {
  row_tracking : string;
  row_bin : option Z;
  row_status : string
}.

(** Trucks are objects shared between callers and the loading stack:
    they are referred to by their address in [heap]. *)
Definition ref := nat.

(** The controller's fields, the heap of trucks and the sqlite
    connection.  [stack_loading] is kept newest first ([append] is cons,
    [pop] takes the head); [queue_incoming] has its left end at the
    head.  [shipment_logs] holds the committed rows and [db_pending] the
    rows inserted since the last commit or rollback.  [db_faults] is the
    schedule of the store: each call on it ([connect], [execute],
    [executemany], [commit]) consumes one entry and raises when it is
    [true]; an exhausted schedule means no more faults. *)
Record State : Type := mkState {
  bin_inventory : list StorageBin;
  queue_incoming : list Package;
  stack_loading : list (ref * Package);
  heap : gmap nat Truck;
  bin_configuration : list (Z * Z * string);
  shipment_logs : list LogRow;
  db_pending : list LogRow;
  db_faults : list bool
}.

Definition set_bin_inventory (v : list StorageBin) (st : State) : State :=
  mkState v (queue_incoming st) (stack_loading st) (heap st)
          (bin_configuration st) (shipment_logs st) (db_pending st) (db_faults st).
Definition set_queue_incoming (v : list Package) (st : State) : State :=
  mkState (bin_inventory st) v (stack_loading st) (heap st)
          (bin_configuration st) (shipment_logs st) (db_pending st) (db_faults st).
Definition set_stack_loading (v : list (ref * Package)) (st : State) : State :=
  mkState (bin_inventory st) (queue_incoming st) v (heap st)
          (bin_configuration st) (shipment_logs st) (db_pending st) (db_faults st).
Definition set_heap (v : gmap nat Truck) (st : State) : State :=
  mkState (bin_inventory st) (queue_incoming st) (stack_loading st) v
          (bin_configuration st) (shipment_logs st) (db_pending st) (db_faults st).
Definition set_bin_configuration (v : list (Z * Z * string)) (st : State) : State :=
  mkState (bin_inventory st) (queue_incoming st) (stack_loading st) (heap st)
          v (shipment_logs st) (db_pending st) (db_faults st).
Definition set_shipment_logs (v : list LogRow) (st : State) : State :=
  mkState (bin_inventory st) (queue_incoming st) (stack_loading st) (heap st)
          (bin_configuration st) v (db_pending st) (db_faults st).
Definition set_db_pending (v : list LogRow) (st : State) : State :=
  mkState (bin_inventory st) (queue_incoming st) (stack_loading st) (heap st)
          (bin_configuration st) (shipment_logs st) v (db_faults st).
Definition set_db_faults (v : list bool) (st : State) : State :=
  mkState (bin_inventory st) (queue_incoming st) (stack_loading st) (heap st)
          (bin_configuration st) (shipment_logs st) (db_pending st) v.

(** ** The state-and-exception monad *)

(** A raise keeps the state reached so far: Python does not undo the
    mutations made before an exception. *)
Definition M (A : Type) : Type := State -> result A * State.

Definition ret {A} (a : A) : M A := fun st => (Ok a, st).
Definition raise {A} (e : exn) : M A := fun st => (Raise e, st).
Definition bind {A B} (m : M A) (k : A -> M B) : M B :=
  fun st => match m st with
            | (Ok a, st') => k a st'
            | (Raise e, st') => (Raise e, st')
            end.
Definition get : M State := fun st => (Ok st, st).
Definition modify (f : State -> State) : M unit := fun st => (Ok tt, f st).
Definition lift {A} (r : result A) : M A := fun st => (r, st).

(** [try: body  except: handler]. *)
Definition try_except {A} (body : M A) (handler : exn -> M A) : M A :=
  fun st => match body st with
            | (Ok a, st') => (Ok a, st')
            | (Raise e, st') => handler e st'
            end.

Notation "x <- m ;; k" := (bind m (fun x => k))
  (at level 100, m at next level, right associativity).
Notation "m ;; k" := (bind m (fun _ => k))
  (at level 100, right associativity).

(** ** The sqlite connection *)

(** One call on the store, following the schedule. *)
Definition db_step : M unit :=
  fun st => match db_faults st with
            | true :: fs => (Raise DbError, set_db_faults fs st)
            | false :: fs => (Ok tt, set_db_faults fs st)
            | [] => (Ok tt, st)
            end.

(** [db_connection.commit()]. *)
Definition db_commit : M unit :=
  db_step ;;
  modify (fun st => set_db_pending []
                      (set_shipment_logs (shipment_logs st ++ db_pending st) st)).

(** [db_connection.rollback()]; taken not to fault. *)
Definition db_rollback : M unit :=
  modify (set_db_pending []).

(** [log_action(tracking_id, bin_id, status)]. *)
Definition log_action (tid : string) (bid : option Z) (status : string) : M unit :=
  db_step ;;
  modify (fun st => set_db_pending (db_pending st ++ [mkRow tid bid status]) st).

(** ** Bootstrap *)

Definition demo : list (Z * Z * string) :=
  [(1, 10, "A1"); (2, 20, "A2"); (3, 50, "B1"); (4, 100, "B2")].

(** [list.sort(key=lambda b: b.capacity)] is a stable sort; a stable
    insertion sort gives the same list. *)
Fixpoint insert_by_capacity (b : StorageBin) (l : list StorageBin) : list StorageBin :=
  match l with
  | [] => [b]
  | c :: l' => if bin_capacity b <=? bin_capacity c then b :: c :: l'
               else c :: insert_by_capacity b l'
  end.

Definition sort_by_capacity (l : list StorageBin) : list StorageBin :=
  foldr insert_by_capacity [] l.

(** [load_bins_from_db()]: the count query; on an empty table,
    [executemany] of the demo rows and a commit, which also makes the
    rows final that are pending on the connection; then the rows are
    read back by the second query, in row order, and sorted.
    [fetchone] and [fetchall] hand over what the query before them
    produced. *)
Definition load_bins_from_db : M unit :=
  db_step ;;
  st <- get ;;
  (if (length (bin_configuration st) =? 0)%nat
   then db_step ;; modify (set_bin_configuration demo) ;; db_commit
   else ret tt) ;;
  db_step ;;
  st <- get ;;
  let rows := bin_configuration st in
  modify (set_bin_inventory
            (sort_by_capacity (map (fun r => new_bin r.1.1 r.1.2 r.2) rows))).

(** [setup_database()]: the two [CREATE TABLE IF NOT EXISTS] statements
    and a commit; the tables of the model exist from the start. *)
Definition setup_database : M unit :=
  db_step ;; db_step ;; db_commit.

(** The body of [WarehouseController.__init__] after the singleton
    guard, on a database whose tables are [cfg] and [logs]:
    [sqlite3.connect], [setup_database], [load_bins_from_db].  The
    three lists start empty; [cursor()] only makes the object that the
    later statements go through. *)
Definition init (cfg : list (Z * Z * string)) (logs : list LogRow) (faults : list bool)
  : result unit * State :=
  (db_step ;; setup_database ;; load_bins_from_db)
    (mkState [] [] [] ∅ cfg logs [] faults).

(** [WarehouseController.__init__] with its guard: [instance] tells
    whether [WarehouseController._instance] is set. *)
Definition controller_new (instance : bool) (cfg : list (Z * Z * string))
           (logs : list LogRow) (faults : list bool) : result unit * State :=
  if instance
  then (Raise (PyException "Use get_instance(), not direct create"),
        mkState [] [] [] ∅ cfg logs [] faults)
  else init cfg logs faults.

(** ** Controller operations *)

(** [add_package(package)]. *)
Definition add_package (package : Package) : M unit :=
  modify (fun st => set_queue_incoming (queue_incoming st ++ [package]) st).

(** [process_package()].  The [print] calls are left out.  When the
    search finds a bin, [idx] is a probe position of the loop, hence
    not negative, and the bin object it names sits at position
    [Z.to_nat idx] of the list. *)
Definition process_package : M unit :=
  st <- get ;;
  match queue_incoming st with
  | [] => ret tt
  | pkg :: q =>
      modify (set_queue_incoming q) ;;
      try_except
        (st <- get ;;
         idx <- lift (find_best_fit_bin (bin_inventory st) (size pkg)) ;;
         (if idx =? -1
          then log_action (tracking_id pkg) None "NO_BIN"
          else
            bin_obj <- lift (py_getitem (bin_inventory st) idx) ;;
            u <- lift (occupy_space (bin_unit bin_obj) (size pkg)) ;;
            modify (fun st =>
                      set_bin_inventory
                        (<[Z.to_nat idx :=
                             mkBin u (bin_id bin_obj) (location_code bin_obj)]>
                           (bin_inventory st)) st) ;;
            log_action (tracking_id pkg) (Some (bin_id bin_obj)) "BIN_ASSIGNED") ;;
         db_commit)
        (fun _ => db_rollback)
  end.

(** [truck.remaining_space()] through a reference. *)
Definition truck_remaining_space (t : ref) : M Z :=
  st <- get ;;
  match heap st !! t with
  | Some tr => ret (remaining_space (truck_unit tr))
  | None => raise RefError
  end.

(** [truck.occupy_space(amount)] through a reference. *)
Definition truck_occupy_space (t : ref) (amount : Z) : M unit :=
  st <- get ;;
  match heap st !! t with
  | Some tr =>
      u <- lift (occupy_space (truck_unit tr) amount) ;;
      modify (fun st => set_heap (<[t := mkTruck u (truck_id tr)]> (heap st)) st)
  | None => raise RefError
  end.

(** [truck.free_space(amount)] through a reference; it cannot raise. *)
Definition truck_free_space (t : ref) (amount : Z) : M unit :=
  modify (fun st =>
            set_heap (alter (fun tr => mkTruck (free_space (truck_unit tr) amount)
                                               (truck_id tr)) t (heap st)) st).

(** The [for p in chosen] loop of [load_fragile]. *)
Fixpoint load_each (truck : ref) (chosen : list Package) : M unit :=
  match chosen with
  | [] => ret tt
  | p :: chosen' =>
      modify (fun st => set_stack_loading ((truck, p) :: stack_loading st) st) ;;
      truck_occupy_space truck (size p) ;;
      log_action (tracking_id p) None "TRUCK_LOADED" ;;
      load_each truck chosen'
  end.

(** [load_fragile(truck, fragile_pkgs)] on a stack that is deep enough
    for the search. *)
Definition load_fragile (truck : ref) (fragile_pkgs : list Package) : M (list Package) :=
  space <- truck_remaining_space truck ;;
  r <- lift (try_load fragile_pkgs 0 space []) ;;
  let '(found, chosen) := r in
  if negb found then ret []
  else
    try_except (load_each truck chosen ;; db_commit) (fun _ => db_rollback) ;;
    ret chosen.

(** [load_fragile(truck, fragile_pkgs)] as the interpreter runs it, with
    [frames] frames left inside its body: the search runs before the
    [try], so what it raises leaves [load_fragile]; its local list
    [chosen] is then lost.  The other calls of the body
    ([remaining_space], [occupy_space], [log_action]) open one frame at
    a time, which is there whenever the search had its frames. *)
Definition load_fragile_frames (frames : nat) (truck : ref) (fragile_pkgs : list Package)
  : M (list Package) :=
  space <- truck_remaining_space truck ;;
  let '(r, chosen) := try_load_frames frames fragile_pkgs 0 space [] in
  found <- lift r ;;
  if negb found then ret []
  else
    try_except (load_each truck chosen ;; db_commit) (fun _ => db_rollback) ;;
    ret chosen.

(** The [while] loop of [rollback]; [stack] is [self.stack_loading] at
    the loop head and [removed] the counter. *)
Fixpoint rollback_loop (stack : list (ref * Package)) (count : option Z) (removed : Z)
  : M unit :=
  match stack with
  | [] => ret tt
  | (truck, pkg) :: stack' =>
      if match count with None => true | Some c => removed <? c end
      then
        modify (set_stack_loading stack') ;;
        truck_free_space truck (size pkg) ;;
        log_action (tracking_id pkg) None "ROLLBACK" ;;
        rollback_loop stack' count (removed + 1)
      else ret tt
  end.

(** [rollback(count=None)]. *)
Definition rollback (count : option Z) : M unit :=
  try_except
    (st <- get ;;
     rollback_loop (stack_loading st) count 0 ;;
     db_commit)
    (fun _ => db_rollback).

(** ** The demo run of [main] *)

Definition p1 := mkPackage "P001" 5 "Delhi".
Definition p2 := mkPackage "P002" 12 "Mumbai".
Definition p3 := mkPackage "P003" 8 "Chennai".
Definition p4 := mkPackage "P004" 25 "Kolkata".
Definition p5 := mkPackage "P005" 9 "Bangalore".

Fixpoint repeat_m (n : nat) (m : M unit) : M unit :=
  match n with
  | O => ret tt
  | S n' => m ;; repeat_m n' m
  end.

Fixpoint for_each {A} (l : list A) (f : A -> M unit) : M unit :=
  match l with
  | [] => ret tt
  | x :: l' => f x ;; for_each l' f
  end.

(** The placement part of [main], on a fresh database. *)
Definition main_placement : result unit * State :=
  match init [] [] [] with
  | (Ok _, st) =>
      (for_each [p1; p2; p3; p4; p5] add_package ;;
       repeat_m 5 process_package) st
  | r => r
  end.

(** * Vocabulary of the properties *)

(** The invariant of a storage unit. *)
Definition unit_inv (u : StorageUnit) : Prop :=
  0 <= used_space u <= capacity u.

(** The invariant of the whole memory: every bin and every truck
    satisfies [unit_inv], and the packages waiting in the queue or
    recorded on the loading stack have non-negative sizes. *)
Definition wf (st : State) : Prop :=
  Forall (fun b => unit_inv (bin_unit b)) (bin_inventory st) /\
  Forall (fun p => 0 <= size p) (queue_incoming st) /\
  Forall (fun e : ref * Package => 0 <= size e.2) (stack_loading st) /\
  map_Forall (fun _ tr => unit_inv (truck_unit tr)) (heap st).

(** The part of the state that lives in memory, not in the store. *)
Definition memory (st : State)
  : list StorageBin * list Package * list (ref * Package) * gmap nat Truck :=
  (bin_inventory st, queue_incoming st, stack_loading st, heap st).

(** Ascending by capacity. *)
Definition sorted_by_capacity (bins : list StorageBin) : Prop :=
  StronglySorted Z.le (map bin_capacity bins).

(** The state after the queue has been popped and the transaction
    rolled back. *)
Definition aborted (q : list Package) (st : State) : State :=
  set_db_pending [] (set_queue_incoming q st).

(** The bin inventory after the bin at [idx] has taken [amount]. *)
Definition bins_after_reserve (bins : list StorageBin) (idx : Z) (b : StorageBin) (u : StorageUnit)
  : list StorageBin :=
  <[Z.to_nat idx := mkBin u (bin_id b) (location_code b)]> bins.

(** Two inventories that differ at most in the used space of their bins. *)
Definition same_except_used (bins1 bins2 : list StorageBin) : Prop :=
  Forall2 (fun a b => bin_id a = bin_id b /\
                      location_code a = location_code b /\
                      bin_capacity a = bin_capacity b) bins1 bins2.

(** A state in which the bin of capacity 10 already holds 5 units and
    the package of size 8 is next in the queue. *)
Definition st_bin10_holds5 : State :=
  mkState [mkBin (mkUnit 10 5) 1 "A1"; new_bin 2 20 "A2"; new_bin 3 50 "B1"; new_bin 4 100 "B2"]
          [p3] [] ∅ demo [] [] [].



(** The sum of the sizes of a selection. *)
Definition total_size (l : list Package) : Z :=
  foldr (fun p acc => size p + acc) 0 l.




(** [s] can be loaded item by item into [space]. *)
Fixpoint loads_in_order (s : list Package) (space : Z) : Prop :=
  match s with
  | [] => 0 <= space
  | p :: s' => size p <= space /\ loads_in_order s' (space - size p)
  end.

(** The audit rows written for a loaded selection. *)
Definition loaded_rows (s : list Package) : list LogRow :=
  map (fun p => mkRow (tracking_id p) None "TRUCK_LOADED") s.

(** The truck after it has taken [amount] more. *)
Definition truck_after (tr : Truck) (amount : Z) : Truck :=
  mkTruck (mkUnit (capacity (truck_unit tr)) (used_space (truck_unit tr) + amount))
          (truck_id tr).

(** A truck of capacity 40, as in [main], at address 0. *)
Definition st_truck (faults : list bool) : State :=
  mkState demo_bins [] [] {[0%nat := new_truck "T101" 40]} demo [] [] faults.

(** [truck.free_space(pkg.size)] for one entry of the stack. *)
Definition release_entry (h : gmap nat Truck) (e : ref * Package) : gmap nat Truck :=
  alter (fun tr => mkTruck (free_space (truck_unit tr) (size e.2)) (truck_id tr)) e.1 h.

(** [release_entry] over a list of entries, head first. *)
Definition release_all (entries : list (ref * Package)) (h : gmap nat Truck)
  : gmap nat Truck :=
  foldl release_entry h entries.

(** The audit rows written for popped entries. *)
Definition rollback_rows (entries : list (ref * Package)) : list LogRow :=
  map (fun e => mkRow (tracking_id e.2) None "ROLLBACK") entries.

(** How many turns the loop takes from a counter at [removed]. *)
Definition turns (count : option Z) (removed : Z) (len : nat) : nat :=
  match count with
  | None => len
  | Some c => Z.to_nat (Z.min (c - removed) (Z.of_nat len))
  end.

(** The state of [main] after [load_fragile(truck, [p1, p3, p5])] on a
    truck of capacity 40: three entries on the stack, 22 units used. *)
Definition st_loaded : State :=
  snd (load_fragile 0%nat [p1; p3; p5] (st_truck [])).

(** The capacity of the bin that the committed log assigns to a
    tracking id, if any. *)
Definition assigned_capacity (st : State) (tid : string) : option Z :=
  match find (fun r => String.eqb (row_tracking r) tid
                       && String.eqb (row_status r) "BIN_ASSIGNED")
             (shipment_logs st) with
  | Some (mkRow _ (Some id) _) =>
      bin_capacity <$> find (fun b => bin_id b =? id) (bin_inventory st)
  | _ => None
  end.

(** The tracking ids of [main], in queue order. *)
Definition main_ids : list string := ["P001"; "P002"; "P003"; "P004"; "P005"].


(** ** Vocabulary of the further properties *)


(** The bin that [load_bins_from_db] builds from a row of the table. *)
Definition bin_of_row (r : Z * Z * string) : StorageBin :=
  new_bin r.1.1 r.1.2 r.2.

(** What identifies a bin apart from its used space. *)
Definition bin_shape (b : StorageBin) : Z * Z * string :=
  (bin_id b, bin_capacity b, location_code b).

(** What identifies a truck apart from its used space. *)
Definition truck_shape (tr : Truck) : string * Z :=
  (truck_id tr, capacity (truck_unit tr)).

(** [st'] has the containers of [st]: ids, capacities and places of the
    bins, in order, and ids and capacities of the trucks. *)
Definition same_containers (st st' : State) : Prop :=
  map bin_shape (bin_inventory st') = map bin_shape (bin_inventory st) /\
  truck_shape <$> heap st' = truck_shape <$> heap st.

(** One pass over the candidates that takes every item that fits in
    the space left by the items taken before it. *)
Fixpoint greedy_load (rest : list Package) (space : Z) : list Package :=
  match rest with
  | [] => []
  | p :: rest' =>
      if size p <=? space then p :: greedy_load rest' (space - size p)
      else greedy_load rest' space
  end.

(** The sizes recorded on the loading stack for one truck. *)
Definition ledger_sum (t : ref) (stack : list (ref * Package)) : Z :=
  foldr (fun e acc => if Nat.eqb e.1 t then size e.2 + acc else acc) 0 stack.

(** Every truck holds at least what the loading stack records for it. *)
Definition ledger_backed (st : State) : Prop :=
  forall (t : ref) (tr : Truck),
    heap st !! t = Some tr ->
    ledger_sum t (stack_loading st) <= used_space (truck_unit tr).

(** * Properties *)

(** ** Containers *)

Lemma occupy_space_ok (u : StorageUnit) (amount : Z) :
  used_space u + amount <= capacity u ->
  occupy_space u amount = Ok (mkUnit (capacity u) (used_space u + amount)).
Proof.
  intros H. unfold occupy_space.
  destruct (Z.gtb_spec (used_space u + amount) (capacity u)); [lia | reflexivity].
Qed.

Lemma occupy_space_raise (u : StorageUnit) (amount : Z) :
  used_space u + amount > capacity u ->
  occupy_space u amount = Raise (ValueError "Not enough space").
Proof.
  intros H. unfold occupy_space.
  destruct (Z.gtb_spec (used_space u + amount) (capacity u)); [reflexivity | lia].
Qed.

Lemma occupy_space_inv (u u' : StorageUnit) (amount : Z) :
  occupy_space u amount = Ok u' ->
  used_space u + amount <= capacity u /\
  u' = mkUnit (capacity u) (used_space u + amount).
Proof.
  unfold occupy_space.
  destruct (Z.gtb_spec (used_space u + amount) (capacity u)); [discriminate |].
  intros [= <-]. split; [lia | reflexivity].
Qed.

(** ** Binary search *)

Lemma sorted_by_capacity_lookup (bins : list StorageBin) :
  sorted_by_capacity bins ->
  forall (i j : nat) (bi bj : StorageBin),
    bins !! i = Some bi -> bins !! j = Some bj -> (i <= j)%nat ->
    bin_capacity bi <= bin_capacity bj.
Proof.
  unfold sorted_by_capacity. induction bins as [|b bins IH]; intros Hs i j bi bj Hi Hj Hij.
  - discriminate.
  - simpl in Hs. apply StronglySorted_inv in Hs as [Hs Hall].
    destruct i as [|i], j as [|j]; simpl in *.
    + assert (bi = bj) by congruence. subst. lia.
    + injection Hi as <-. rewrite Forall_forall in Hall. apply Hall.
      apply list_elem_of_In, in_map, list_elem_of_In.
      eapply list_elem_of_lookup_2; eauto.
    + lia.
    + eapply IH; eauto. lia.
Qed.

Lemma py_getitem_in_range {A} (l : list A) (i : Z) :
  0 <= i < Z.of_nat (length l) ->
  exists x, l !! Z.to_nat i = Some x /\ py_getitem l i = Ok x.
Proof.
  intros H. unfold py_getitem.
  destruct (Z.ltb_spec i 0); [lia |].
  destruct (Z.leb_spec 0 i); [| lia].
  destruct (Z.ltb_spec i (Z.of_nat (length l))); [| lia]. simpl.
  destruct (l !! Z.to_nat i) as [x|] eqn:E.
  - eauto.
  - apply lookup_ge_None in E. lia.
Qed.

(** The loop invariant: everything left of [low] is too small,
    everything right of [high] is large enough, and [ans] is the index
    just right of [high] when there is one. *)
Lemma find_best_fit_loop_spec (bins : list StorageBin) (pkg_size low high ans : Z) :
  0 <= low -> high < Z.of_nat (length bins) -> low <= high + 1 ->
  (forall (j : nat) b, bins !! j = Some b -> Z.of_nat j < low -> bin_capacity b < pkg_size) ->
  (forall (j : nat) b, bins !! j = Some b -> high < Z.of_nat j -> pkg_size <= bin_capacity b) ->
  ans = (if high + 1 <? Z.of_nat (length bins) then high + 1 else -1) ->
  sorted_by_capacity bins ->
  exists k,
    find_best_fit_loop bins pkg_size low high ans = Ok (if k <? Z.of_nat (length bins) then k else -1) /\
    0 <= k <= Z.of_nat (length bins) /\
    (forall (j : nat) b, bins !! j = Some b -> Z.of_nat j < k -> bin_capacity b < pkg_size) /\
    (forall (j : nat) b, bins !! j = Some b -> k <= Z.of_nat j -> pkg_size <= bin_capacity b).
Proof.
  intros Hlow Hhigh Hlh Hl Hr Hans Hs.
  funelim (find_best_fit_loop bins pkg_size low high ans).
  - (* loop exit: low = high + 1 *)
    exists low. assert (low = high + 1) as -> by lia.
    repeat split; try lia.
    + intros j b Hj Hlt. eapply Hl; eauto.
    + intros j b Hj Hle. eapply Hr; eauto. lia.
  - (* the probe is always inside the list *)
    destruct (py_getitem_in_range bins ((low + high) / 2)) as (x & _ & Hx).
    { pose proof (Z.div_mod (low + high) 2 ltac:(lia)).
      pose proof (Z.mod_pos_bound (low + high) 2 ltac:(lia)). lia. }
    congruence.
  - (* capacity >= pkg_size: go left, remember mid *)
    pose proof (Z.div_mod (low + high) 2 ltac:(lia)) as Hdm.
    pose proof (Z.mod_pos_bound (low + high) 2 ltac:(lia)) as Hmb.
    destruct (py_getitem_in_range bins ((low + high) / 2)) as (x & Hx & Hx'); [lia |].
    assert (x = b) as -> by congruence.
    apply Z.geb_le in Heq.
    match goal with IH : _ -> _ -> _ -> _ -> _ -> _ -> _ -> ex _ |- _ => apply IH end;
      try lia; try assumption.
    + intros j b' Hj Hlt.
      pose proof (sorted_by_capacity_lookup bins Hs (Z.to_nat ((low + high) / 2)) j b b' Hx Hj).
      lia.
    + destruct (Z.ltb_spec ((low + high) / 2 - 1 + 1) (Z.of_nat (length bins))); lia.
  - (* capacity < pkg_size: go right, keep ans *)
    pose proof (Z.div_mod (low + high) 2 ltac:(lia)) as Hdm.
    pose proof (Z.mod_pos_bound (low + high) 2 ltac:(lia)) as Hmb.
    destruct (py_getitem_in_range bins ((low + high) / 2)) as (x & Hx & Hx'); [lia |].
    assert (x = b) as -> by congruence.
    assert (bin_capacity b < pkg_size) as Hb.
    { destruct (Z.geb_spec (bin_capacity b) pkg_size); [discriminate | lia]. }
    match goal with IH : _ -> _ -> _ -> _ -> _ -> _ -> _ -> ex _ |- _ => apply IH end;
      try lia; try assumption; try reflexivity.
    intros j b' Hj Hlt.
    pose proof (sorted_by_capacity_lookup bins Hs j (Z.to_nat ((low + high) / 2)) b' b Hj Hx).
    lia.
Qed.

(** On a sorted inventory the search returns the first index whose
    capacity is large enough, or [-1]. *)
Lemma find_best_fit_bin_spec (bins : list StorageBin) (pkg_size : Z) :
  sorted_by_capacity bins ->
  exists k,
    find_best_fit_bin bins pkg_size = Ok (if k <? Z.of_nat (length bins) then k else -1) /\
    0 <= k <= Z.of_nat (length bins) /\
    (forall (j : nat) b, bins !! j = Some b -> Z.of_nat j < k -> bin_capacity b < pkg_size) /\
    (forall (j : nat) b, bins !! j = Some b -> k <= Z.of_nat j -> pkg_size <= bin_capacity b).
Proof.
  intros Hs. unfold find_best_fit_bin.
  apply find_best_fit_loop_spec.
  - lia.
  - lia.
  - lia.
  - intros j b Hj Hlt. lia.
  - intros j b Hj Hlt. apply lookup_lt_Some in Hj. lia.
  - destruct (Z.ltb_spec (Z.of_nat (length bins) - 1 + 1) (Z.of_nat (length bins))); lia.
  - assumption.
Qed.

(** C2: on an inventory sorted ascending by capacity, [find_best_fit_bin]
    returns an index; it is [-1] exactly when no bin has capacity at
    least the size; otherwise it is the index of a bin of capacity at
    least the size such that every bin of capacity at least the size has
    a capacity no smaller and an index no smaller (smallest sufficient
    capacity, leftmost among equal ones).  On capacities [10,20,50,100],
    size 15 gives the bin of capacity 20 and size 150 gives [-1]. *)
Theorem C2_best_fit_smallest_sufficient
  (bins : list StorageBin) (pkg_size : Z) (Hsorted : sorted_by_capacity bins) :
  (exists idx,
      find_best_fit_bin bins pkg_size = Ok idx /\
      (idx = -1 <-> forall b, b ∈ bins -> bin_capacity b < pkg_size) /\
      (idx <> -1 ->
       exists b,
         0 <= idx /\ bins !! Z.to_nat idx = Some b /\
         pkg_size <= bin_capacity b /\
         forall (j : nat) b',
           bins !! j = Some b' -> pkg_size <= bin_capacity b' ->
           bin_capacity b <= bin_capacity b' /\ idx <= Z.of_nat j)) /\
  (find_best_fit_bin demo_bins 15 = Ok 1 /\
   bin_capacity <$> demo_bins !! 1%nat = Some 20 /\
   find_best_fit_bin demo_bins 150 = Ok (-1)).
Proof.
  split; [| vm_compute; repeat split; reflexivity].
  destruct (find_best_fit_bin_spec bins pkg_size Hsorted) as (k & Hk & Hrange & Hl & Hr).
  destruct (Z.ltb_spec k (Z.of_nat (length bins))) as [Hlt | Hge].
  - exists k. split; [exact Hk |]. 
    destruct (lookup_lt_is_Some_2 bins (Z.to_nat k) ltac:(lia)) as [b Hb].
    assert (pkg_size <= bin_capacity b) as Hfit by (eapply Hr; eauto; lia).
    split; [split |].
    + lia.
    + intros Hall. apply list_elem_of_lookup_2 in Hb. specialize (Hall b Hb). lia.
    + intros _. exists b. repeat split; try lia; try assumption.
      * pose proof (sorted_by_capacity_lookup bins Hsorted (Z.to_nat k) j b b' Hb H).
        destruct (Z.lt_ge_cases (Z.of_nat j) k) as [Hjk | Hjk].
        -- specialize (Hl j b' H Hjk). lia.
        -- lia.
      * destruct (Z.lt_ge_cases (Z.of_nat j) k) as [Hjk | Hjk]; [| lia].
        specialize (Hl j b' H Hjk). lia.
  - exists (-1). split; [exact Hk |]. split; [split |].
    + intros _ b Hb. apply list_elem_of_lookup_1 in Hb as [j Hj].
      eapply Hl; eauto. apply lookup_lt_Some in Hj. lia.
    + reflexivity.
    + intros Hne. congruence.
Qed.

Lemma demo_bins_sorted : sorted_by_capacity demo_bins.
Proof.
  unfold sorted_by_capacity. simpl.
  repeat (apply SSorted_cons; [| repeat constructor; unfold bin_capacity; simpl; lia]).
  apply SSorted_nil.
Qed.

Lemma C2_best_fit_witness :
  sorted_by_capacity demo_bins /\
  exists idx, find_best_fit_bin demo_bins 15 = Ok idx /\ idx <> -1.
Proof.
  split; [exact demo_bins_sorted |].
  destruct (C2_best_fit_smallest_sufficient demo_bins 15 demo_bins_sorted)
    as [(idx & Hidx & _ & _) _].
  exists idx. split; [exact Hidx |].
  vm_compute in Hidx. injection Hidx as <-. discriminate.
Defined.

(** ** Best fit reads capacities only *)

Lemma py_getitem_capacity (bins1 bins2 : list StorageBin) (i : Z) :
  map bin_capacity bins1 = map bin_capacity bins2 ->
  match py_getitem bins1 i, py_getitem bins2 i with
  | Ok a, Ok b => bin_capacity a = bin_capacity b
  | Raise e1, Raise e2 => e1 = e2
  | _, _ => False
  end.
Proof.
  intros Hcap. unfold py_getitem.
  assert (length bins1 = length bins2) as Hlen.
  { apply (f_equal (@length Z)) in Hcap. by rewrite !length_map in Hcap. }
  rewrite Hlen.
  set (j := if i <? 0 then Z.of_nat (length bins2) + i else i).
  destruct ((0 <=? j) && (j <? Z.of_nat (length bins2))); [| reflexivity].
  assert (map bin_capacity bins1 !! Z.to_nat j = map bin_capacity bins2 !! Z.to_nat j) as Hj
    by (by rewrite Hcap).
  change (map bin_capacity) with (fmap (M := list) bin_capacity) in Hj.
  rewrite !list_lookup_fmap in Hj.
  destruct (bins1 !! Z.to_nat j), (bins2 !! Z.to_nat j); simpl in Hj; congruence.
Qed.

Lemma find_best_fit_loop_capacity (bins1 bins2 : list StorageBin) (pkg_size low high ans : Z) :
  map bin_capacity bins1 = map bin_capacity bins2 ->
  find_best_fit_loop bins1 pkg_size low high ans =
  find_best_fit_loop bins2 pkg_size low high ans.
Proof.
  intros Hcap.
  funelim (find_best_fit_loop bins1 pkg_size low high ans).
  all: clear Heqcall.
  all: rewrite (find_best_fit_loop_equation_1 bins2 pkg_size low high ans).
  all: match goal with E : Z_le_gt_dec _ _ = _ |- _ => rewrite E end; simpl.
  all: try reflexivity.
  all: match goal with
       | E : py_getitem ?B ?i = _ |- _ =>
           pose proof (py_getitem_capacity B bins2 i Hcap) as Hg; rewrite E in Hg;
           destruct (py_getitem bins2 i) as [b2 | e2]; try contradiction; simpl
       end.
  all: try congruence.
  all: rewrite <- Hg.
  all: match goal with E : (bin_capacity _ >=? _) = _ |- _ => rewrite E end; simpl.
  all: auto.
Qed.

Lemma find_best_fit_bin_capacity (bins1 bins2 : list StorageBin) (pkg_size : Z) :
  map bin_capacity bins1 = map bin_capacity bins2 ->
  find_best_fit_bin bins1 pkg_size = find_best_fit_bin bins2 pkg_size.
Proof.
  intros Hcap. unfold find_best_fit_bin.
  assert (length bins1 = length bins2) as ->.
  { apply (f_equal (@length Z)) in Hcap. by rewrite !length_map in Hcap. }
  by apply find_best_fit_loop_capacity.
Qed.

(** ** Running [process_package] *)

Ltac run_m :=
  cbv beta iota delta [try_except bind get modify lift ret raise
                         log_action db_commit db_rollback db_step];
  simpl.

Lemma process_package_empty (st : State) :
  queue_incoming st = [] -> process_package st = (Ok tt, st).
Proof. intros H. unfold process_package. run_m. by rewrite H. Qed.

Lemma process_package_no_bin (st : State) (pkg : Package) (q : list Package) :
  queue_incoming st = pkg :: q ->
  find_best_fit_bin (bin_inventory st) (size pkg) = Ok (-1) ->
  db_faults st = [] ->
  process_package st =
  (Ok tt,
   set_db_pending []
     (set_shipment_logs
        (shipment_logs st ++ db_pending st ++ [mkRow (tracking_id pkg) None "NO_BIN"])
        (set_queue_incoming q st))).
Proof.
  intros Hq Hfind Hf. unfold process_package. run_m.
  rewrite Hq. simpl. rewrite Hfind. simpl. repeat (rewrite Hf; simpl). reflexivity.
Qed.

Lemma process_package_reserve_fails (st : State) (pkg : Package) (q : list Package)
      (idx : Z) (b : StorageBin) :
  queue_incoming st = pkg :: q ->
  find_best_fit_bin (bin_inventory st) (size pkg) = Ok idx ->
  idx <> -1 ->
  py_getitem (bin_inventory st) idx = Ok b ->
  bin_used b + size pkg > bin_capacity b ->
  process_package st = (Ok tt, aborted q st).
Proof.
  intros Hq Hfind Hidx Hget Hfull. unfold process_package. run_m.
  rewrite Hq. simpl. rewrite Hfind. simpl.
  destruct (Z.eqb_spec idx (-1)); [contradiction |].
  rewrite Hget. simpl. rewrite (occupy_space_raise _ _ Hfull). reflexivity.
Qed.

Lemma process_package_assigned (st : State) (pkg : Package) (q : list Package)
      (idx : Z) (b : StorageBin) :
  queue_incoming st = pkg :: q ->
  find_best_fit_bin (bin_inventory st) (size pkg) = Ok idx ->
  idx <> -1 ->
  py_getitem (bin_inventory st) idx = Ok b ->
  bin_used b + size pkg <= bin_capacity b ->
  db_faults st = [] ->
  process_package st =
  (Ok tt,
   set_db_pending []
     (set_shipment_logs
        (shipment_logs st ++ db_pending st ++
           [mkRow (tracking_id pkg) (Some (bin_id b)) "BIN_ASSIGNED"])
        (set_bin_inventory
           (bins_after_reserve (bin_inventory st) idx b
              (mkUnit (bin_capacity b) (bin_used b + size pkg)))
           (set_queue_incoming q st)))).
Proof.
  intros Hq Hfind Hidx Hget Hfits Hf. unfold process_package. run_m.
  rewrite Hq. simpl. rewrite Hfind. simpl.
  destruct (Z.eqb_spec idx (-1)); [contradiction |].
  rewrite Hget. simpl. rewrite (occupy_space_ok _ _ Hfits). simpl.
  repeat (rewrite Hf; simpl). reflexivity.
Qed.

(** A fault of the store while the audit row is written, after the bin
    has taken the package. *)
Lemma process_package_log_fault (st : State) (pkg : Package) (q : list Package)
      (idx : Z) (b : StorageBin) (fs : list bool) :
  queue_incoming st = pkg :: q ->
  find_best_fit_bin (bin_inventory st) (size pkg) = Ok idx ->
  idx <> -1 ->
  py_getitem (bin_inventory st) idx = Ok b ->
  bin_used b + size pkg <= bin_capacity b ->
  db_faults st = true :: fs ->
  process_package st =
  (Ok tt,
   set_db_pending []
     (set_db_faults fs
        (set_bin_inventory
           (bins_after_reserve (bin_inventory st) idx b
              (mkUnit (bin_capacity b) (bin_used b + size pkg)))
           (set_queue_incoming q st)))).
Proof.
  intros Hq Hfind Hidx Hget Hfits Hf. unfold process_package. run_m.
  rewrite Hq. simpl. rewrite Hfind. simpl.
  destruct (Z.eqb_spec idx (-1)); [contradiction |].
  rewrite Hget. simpl. rewrite (occupy_space_ok _ _ Hfits). simpl.
  repeat (rewrite Hf; simpl). reflexivity.
Qed.

(** A [try] whose handler is the rollback of the connection returns
    normally whatever its body does. *)
Lemma try_except_rollback_returns (body : M unit) (st : State) :
  fst (try_except body (fun _ => db_rollback) st) = Ok tt.
Proof.
  unfold try_except. destruct (body st) as [[[]|e] st']; reflexivity.
Qed.

(** Whatever happens inside, [process_package] returns normally. *)
Lemma process_package_returns (st : State) :
  fst (process_package st) = Ok tt.
Proof.
  unfold process_package. cbv beta iota delta [bind get modify].
  destruct (queue_incoming st) as [|pkg q]; [reflexivity |].
  apply try_except_rollback_returns.
Qed.

Lemma same_except_used_capacity (bins1 bins2 : list StorageBin) :
  same_except_used bins1 bins2 -> map bin_capacity bins1 = map bin_capacity bins2.
Proof.
  induction 1 as [|a b l1 l2 (_ & _ & Hc) _ IH]; simpl; [reflexivity |].
  by rewrite Hc, IH.
Qed.

(** C9: the index returned by [find_best_fit_bin] is the same on two
    inventories that differ only in used space, for every size; and when
    the selected bin has not enough room left, [process_package] still
    goes to that bin, [occupy_space] raises, and the attempt ends with
    the inventory untouched and nothing written to the log. *)
Theorem C9_best_fit_ignores_used_space
  (bins1 bins2 : list StorageBin) (pkg_size : Z)
  (Hsame : same_except_used bins1 bins2) :
  find_best_fit_bin bins1 pkg_size = find_best_fit_bin bins2 pkg_size /\
  (forall (st : State) (pkg : Package) (q : list Package) (idx : Z) (b : StorageBin),
      queue_incoming st = pkg :: q ->
      find_best_fit_bin (bin_inventory st) (size pkg) = Ok idx ->
      idx <> -1 ->
      py_getitem (bin_inventory st) idx = Ok b ->
      remaining_space (bin_unit b) < size pkg ->
      occupy_space (bin_unit b) (size pkg) = Raise (ValueError "Not enough space") /\
      process_package st = (Ok tt, aborted q st) /\
      bin_inventory (snd (process_package st)) = bin_inventory st /\
      shipment_logs (snd (process_package st)) = shipment_logs st).
Proof.
  split.
  - apply find_best_fit_bin_capacity, same_except_used_capacity, Hsame.
  - intros st pkg q idx b Hq Hfind Hidx Hget Hrem.
    assert (bin_used b + size pkg > bin_capacity b) as Hfull.
    { unfold remaining_space in Hrem. unfold bin_used, bin_capacity. lia. }
    rewrite (process_package_reserve_fails st pkg q idx b Hq Hfind Hidx Hget Hfull).
    split; [apply occupy_space_raise; exact Hfull |].
    repeat split; reflexivity.
Qed.

Lemma C9_best_fit_ignores_used_space_witness :
  same_except_used demo_bins (bin_inventory st_bin10_holds5) /\
  find_best_fit_bin demo_bins 8 = find_best_fit_bin (bin_inventory st_bin10_holds5) 8 /\
  process_package st_bin10_holds5 = (Ok tt, aborted [] st_bin10_holds5).
Proof.
  assert (same_except_used demo_bins (bin_inventory st_bin10_holds5)) as Hsame.
  { unfold same_except_used. simpl. repeat constructor. }
  split; [exact Hsame |].
  destruct (C9_best_fit_ignores_used_space _ _ 8 Hsame) as [Heq Hfail].
  split; [exact Heq |].
  apply (Hfail st_bin10_holds5 p3 [] 0 (mkBin (mkUnit 10 5) 1 "A1")).
  - reflexivity.
  - vm_compute. reflexivity.
  - discriminate.
  - vm_compute. reflexivity.
  - vm_compute. reflexivity.
Defined.

(** ** The loader *)

Lemma total_size_app (l1 l2 : list Package) :
  total_size (l1 ++ l2) = total_size l1 + total_size l2.
Proof. induction l1 as [|p l1 IH]; simpl; [reflexivity | rewrite IH; lia]. Qed.


Lemma loads_in_order_total (s : list Package) (space : Z) :
  loads_in_order s space -> total_size s <= space.
Proof.
  revert space. induction s as [|p s IH]; simpl; intros space H; [lia |].
  destruct H as [_ H]. apply IH in H. lia.
Qed.


Section find_facts.
Context {A : Type}.
Implicit Types (f g : A -> bool) (l : list A).




End find_facts.





(** ** The loader under the recursion limit *)

Lemma try_load_0 (pkgs : list Package) (space : Z) :
  try_load pkgs 0 space [] = Ok (try_load_from (drop 0 pkgs) space []).
Proof. reflexivity. Qed.

Lemma py_getitem_lookup {A} (l : list A) (k : nat) (x : A) :
  l !! k = Some x -> py_getitem l (Z.of_nat k) = Ok x.
Proof.
  intros Hx. pose proof (lookup_lt_Some _ _ _ Hx) as Hlt.
  destruct (py_getitem_in_range l (Z.of_nat k)) as (y & Hy & Hget); [lia |].
  rewrite Nat2Z.id in Hy. congruence.
Qed.



(** With one frame for every remaining candidate and one for the leaf,
    the interpreter's run is the run on a deep stack. *)
Lemma try_load_frames_enough (pkgs : list Package) (frames : nat) :
  forall (k : nat) (space : Z) (chosen : list Package),
    (k <= length pkgs)%nat -> (length pkgs - k < frames)%nat ->
    try_load_frames frames pkgs (Z.of_nat k) space chosen =
    (Ok (try_load_from (drop k pkgs) space chosen).1,
     (try_load_from (drop k pkgs) space chosen).2).
Proof.
  induction frames as [|frames IH]; intros k space chosen Hk Hd; [lia |].
  cbn [try_load_frames].
  destruct (Z.eqb_spec (Z.of_nat k) (Z.of_nat (length pkgs))) as [Heq | Hne].
  - rewrite drop_ge by lia. reflexivity.
  - destruct (lookup_lt_is_Some_2 pkgs k ltac:(lia)) as [pkg Hpkg].
    rewrite (py_getitem_lookup _ _ _ Hpkg), (drop_S _ _ _ Hpkg).
    cbn [try_load_from].
    replace (Z.of_nat k + 1) with (Z.of_nat (S k)) by lia.
    destruct (size pkg <=? space).
    + rewrite IH by lia.
      destruct (try_load_from (drop (S k) pkgs) (space - size pkg) (chosen ++ [pkg]))
        as [[] chosen1]; cbn [fst snd]; [reflexivity |].
      by rewrite IH by lia.
    + by rewrite IH by lia.
Qed.

(** With fewer frames than that, the first descent runs out of stack
    before it reaches a leaf: [RecursionError] goes through every
    caller, and no [pop] is run on the way out, so [chosen] keeps what
    the descent appended. *)
Lemma try_load_frames_short (pkgs : list Package) (frames : nat) :
  forall (k : nat) (space : Z) (chosen : list Package),
    (k <= length pkgs)%nat -> (frames <= length pkgs - k)%nat ->
    try_load_frames frames pkgs (Z.of_nat k) space chosen =
    (Raise RecursionError,
     (chosen ++ greedy_load (take frames (drop k pkgs)) space)%list).
Proof.
  induction frames as [|frames IH]; intros k space chosen Hk Hd.
  - cbn. by rewrite app_nil_r.
  - cbn [try_load_frames].
    destruct (Z.eqb_spec (Z.of_nat k) (Z.of_nat (length pkgs))) as [Heq | Hne]; [lia |].
    destruct (lookup_lt_is_Some_2 pkgs k ltac:(lia)) as [pkg Hpkg].
    rewrite (py_getitem_lookup _ _ _ Hpkg), (drop_S _ _ _ Hpkg).
    cbn [take greedy_load].
    replace (Z.of_nat k + 1) with (Z.of_nat (S k)) by lia.
    destruct (size pkg <=? space).
    + rewrite IH by lia. by rewrite <- app_assoc.
    + by rewrite IH by lia.
Qed.



Lemma try_load_frames_0 (pkgs : list Package) (frames : nat) (space : Z) :
  (length pkgs < frames)%nat ->
  try_load_frames frames pkgs 0 space [] =
  (Ok (try_load_from pkgs space []).1, (try_load_from pkgs space []).2).
Proof.
  intros Hd. change 0 with (Z.of_nat 0).
  rewrite try_load_frames_enough by lia. by rewrite drop_0.
Qed.






(** ** Applying the chosen selection *)

(** Without any assumption on the sizes: a successful search extends
    [chosen] by items that can be loaded one after the other, and a
    failed one leaves [chosen] as it found it. *)
Lemma try_load_from_loads (rest : list Package) :
  forall (space : Z) (chosen : list Package),
    match try_load_from rest space chosen with
    | (true, chosen') => exists s, chosen' = (chosen ++ s)%list /\ loads_in_order s space
    | (false, chosen') => chosen' = chosen
    end.
Proof.
  induction rest as [|pkg rest IH]; intros space chosen; simpl.
  - destruct (Z.of_nat (length chosen) >? 0); simpl; [| reflexivity].
    destruct (Z.geb_spec space 0); [| reflexivity].
    exists []. rewrite app_nil_r. simpl. split; [reflexivity | lia].
  - destruct (Z.leb_spec (size pkg) space) as [Hfit | Hbig]; [| apply IH].
    pose proof (IH (space - size pkg) (chosen ++ [pkg])%list) as Hin.
    destruct (try_load_from rest (space - size pkg) (chosen ++ [pkg])) as [[] chosen1].
    + destruct Hin as (s & -> & Hs). exists (pkg :: s).
      rewrite <- app_assoc. simpl. auto.
    + subst chosen1. rewrite removelast_last. apply IH.
Qed.

Lemma try_load_loads (pkgs : list Package) (i : nat) (space : Z)
      (chosen chosen' : list Package) :
  try_load pkgs i space chosen = Ok (true, chosen') ->
  exists s, chosen' = (chosen ++ s)%list /\ loads_in_order s space.
Proof.
  unfold try_load. destruct (i <=? length pkgs)%nat; [| discriminate].
  intros [= H]. pose proof (try_load_from_loads (drop i pkgs) space chosen) as Hl.
  by rewrite H in Hl.
Qed.

Lemma try_load_loads_0 (pkgs : list Package) (space : Z) (chosen : list Package) :
  try_load pkgs 0 space [] = Ok (true, chosen) -> loads_in_order chosen space.
Proof.
  intros H. apply try_load_loads in H as (s & -> & Hs). exact Hs.
Qed.

(** The [for] loop never sees [occupy_space] raise when the items load
    in order; only the store can interrupt it. *)
Lemma load_each_no_value_error (t : ref) (s : list Package) :
  forall (st : State) (tr : Truck),
    heap st !! t = Some tr ->
    loads_in_order s (remaining_space (truck_unit tr)) ->
    fst (load_each t s st) = Ok tt \/ fst (load_each t s st) = Raise DbError.
Proof.
  induction s as [|p s IH]; intros st tr Ht Hs; simpl; [by left |].
  destruct Hs as [Hp Hs]. unfold truck_occupy_space. run_m. rewrite Ht. simpl.
  rewrite occupy_space_ok by (unfold remaining_space in Hp; lia). simpl.
  destruct (db_faults st) as [|[] fs]; simpl; [| by right |].
  all: eapply IH; [simpl; apply lookup_insert_eq |];
       unfold remaining_space in *; simpl;
       replace (capacity (truck_unit tr) - (used_space (truck_unit tr) + size p))
         with (capacity (truck_unit tr) - used_space (truck_unit tr) - size p) by lia;
       exact Hs.
Qed.

(** The loop on a healthy store. *)
Lemma load_each_run (t : ref) (s : list Package) :
  forall (st : State) (tr : Truck),
    heap st !! t = Some tr ->
    loads_in_order s (remaining_space (truck_unit tr)) ->
    db_faults st = [] ->
    load_each t s st =
    (Ok tt,
     mkState (bin_inventory st) (queue_incoming st)
             (rev (map (pair t) s) ++ stack_loading st)
             (<[t := truck_after tr (total_size s)]> (heap st))
             (bin_configuration st) (shipment_logs st)
             (db_pending st ++ loaded_rows s) []).
Proof.
  induction s as [|p s IH]; intros st tr Ht Hs Hf.
  - simpl. unfold ret. f_equal. destruct st as [b q k h c l pe f]. simpl in *. subst f.
    f_equal.
    + symmetry. apply insert_id. rewrite Ht. f_equal. unfold truck_after.
      destruct tr as [[cap used] id]. simpl. f_equal. f_equal. lia.
    + by rewrite app_nil_r.
  - destruct Hs as [Hp Hs]. simpl. unfold truck_occupy_space. run_m. rewrite Ht. simpl.
    rewrite occupy_space_ok by (unfold remaining_space in Hp; lia). simpl.
    rewrite Hf. simpl.
    erewrite IH; [| simpl; apply lookup_insert_eq | | exact Hf].
    2:{ unfold remaining_space in *. simpl.
        replace (capacity (truck_unit tr) - (used_space (truck_unit tr) + size p))
          with (capacity (truck_unit tr) - used_space (truck_unit tr) - size p) by lia.
        exact Hs. }
    simpl. f_equal. f_equal.
    + by rewrite <- app_assoc.
    + rewrite insert_insert_eq. f_equal. unfold truck_after. simpl. f_equal. f_equal. lia.
    + by rewrite <- app_assoc.
Qed.

Lemma load_fragile_infeasible (t : ref) (pkgs chosen : list Package) (st : State) (tr : Truck) :
  heap st !! t = Some tr ->
  try_load pkgs 0 (remaining_space (truck_unit tr)) [] = Ok (false, chosen) ->
  load_fragile t pkgs st = (Ok [], st).
Proof.
  intros Ht Hload. unfold load_fragile, truck_remaining_space. run_m.
  rewrite Ht. simpl. rewrite try_load_0 in Hload. injection Hload as Hload.
  rewrite Hload. reflexivity.
Qed.

Lemma load_fragile_loaded (t : ref) (pkgs chosen : list Package) (st : State) (tr : Truck) :
  heap st !! t = Some tr ->
  try_load pkgs 0 (remaining_space (truck_unit tr)) [] = Ok (true, chosen) ->
  db_faults st = [] ->
  load_fragile t pkgs st =
  (Ok chosen,
   mkState (bin_inventory st) (queue_incoming st)
           (rev (map (pair t) chosen) ++ stack_loading st)
           (<[t := truck_after tr (total_size chosen)]> (heap st))
           (bin_configuration st)
           (shipment_logs st ++ db_pending st ++ loaded_rows chosen) [] []).
Proof.
  intros Ht Hload Hf. unfold load_fragile, truck_remaining_space. run_m.
  rewrite Ht. simpl. pose proof Hload as Hload'.
  rewrite try_load_0 in Hload'. injection Hload' as Hload'. rewrite Hload'. simpl.
  rewrite (load_each_run t chosen st tr Ht (try_load_loads_0 _ _ _ Hload) Hf). simpl.
  reflexivity.
Qed.

(** [load_fragile] on an allocated truck returns normally. *)
Lemma load_fragile_returns (t : ref) (pkgs : list Package) (st : State) (tr : Truck) :
  heap st !! t = Some tr ->
  exists chosen, fst (load_fragile t pkgs st) = Ok chosen.
Proof.
  intros Ht. unfold load_fragile, truck_remaining_space.
  cbv beta iota delta [bind get lift ret]. rewrite Ht.
  unfold try_load. change (0 <=? length pkgs)%nat with true. cbv iota.
  destruct (try_load_from _ _ _) as [[] chosen]; simpl; [| by exists []].
  exists chosen.
  match goal with |- context [try_except ?b ?h st] =>
    pose proof (try_except_rollback_returns b st) as Hr;
    destruct (try_except b h st) as [[[]|e] st']; simpl in *; [reflexivity | discriminate]
  end.
Qed.

(** C10: when [try_load] succeeds, the packages it has added to [chosen]
    sum to at most the budget (and each one fits in what the previous
    ones left).  So in [load_fragile], which starts it at index 0 with
    nothing chosen and the truck's remaining space as budget, and where
    nothing else touches the truck, no [occupy_space] of the loop
    raises: the loop ends normally or on a fault of the store, and on a
    healthy store every chosen package is on the truck and on the
    stack. *)
Theorem C10_loader_selection_fits
  (pkgs chosen chosen' : list Package) (i : nat) (budget : Z)
  (Hload : try_load pkgs i budget chosen = Ok (true, chosen')) :
  (exists s, chosen' = (chosen ++ s)%list /\
             total_size s <= budget /\ loads_in_order s budget) /\
  (i = 0%nat -> chosen = [] ->
   total_size chosen' <= budget /\
   forall (st : State) (t : ref) (tr : Truck),
     heap st !! t = Some tr ->
     remaining_space (truck_unit tr) = budget ->
     (fst (load_each t chosen' st) = Ok tt \/
      fst (load_each t chosen' st) = Raise DbError) /\
     (db_faults st = [] ->
      load_fragile t pkgs st =
      (Ok chosen',
       mkState (bin_inventory st) (queue_incoming st)
               (rev (map (pair t) chosen') ++ stack_loading st)
               (<[t := truck_after tr (total_size chosen')]> (heap st))
               (bin_configuration st)
               (shipment_logs st ++ db_pending st ++ loaded_rows chosen') [] []))).
Proof.
  split.
  - destruct (try_load_loads _ _ _ _ _ Hload) as (s & Heq & Hs).
    exists s. split; [exact Heq |]. split; [by apply loads_in_order_total | exact Hs].
  - intros -> ->. pose proof (try_load_loads_0 pkgs budget chosen' Hload) as Hs.
    split; [by apply loads_in_order_total |].
    intros st t tr Ht Hrem. subst budget. split.
    + by eapply load_each_no_value_error.
    + intros Hf. by apply load_fragile_loaded.
Qed.

Lemma C10_loader_selection_fits_witness :
  try_load [p1; p3; p5] 0 40 [] = Ok (true, [p1; p3; p5]) /\
  total_size [p1; p3; p5] <= 40 /\
  fst (load_fragile 0%nat [p1; p3; p5] (st_truck [])) = Ok [p1; p3; p5].
Proof.
  assert (try_load [p1; p3; p5] 0 40 [] = Ok (true, [p1; p3; p5])) as Hload
    by (vm_compute; reflexivity).
  split; [exact Hload |].
  destruct (C10_loader_selection_fits [p1; p3; p5] [] [p1; p3; p5] 0 40 Hload) as [_ Hzero].
  destruct (Hzero eq_refl eq_refl) as [Hsum Hrun].
  split; [exact Hsum |].
  destruct (Hrun (st_truck []) 0%nat (new_truck "T101" 40)) as [_ Hrun'].
  - reflexivity.
  - reflexivity.
  - rewrite Hrun' by reflexivity. reflexivity.
Defined.

(** With a frame for every candidate and one more, [load_fragile] runs
    as on a deep stack. *)
Lemma load_fragile_frames_enough (frames : nat) (t : ref) (pkgs : list Package)
      (st : State) :
  (length pkgs < frames)%nat ->
  load_fragile_frames frames t pkgs st = load_fragile t pkgs st.
Proof.
  intros Hd. unfold load_fragile_frames, load_fragile, truck_remaining_space.
  cbv beta iota delta [bind get lift ret raise].
  destruct (heap st !! t) as [tr|]; [| reflexivity].
  rewrite try_load_0, drop_0, (try_load_frames_0 pkgs frames _ Hd).
  by destruct (try_load_from pkgs (remaining_space (truck_unit tr)) []) as [found chosen].
Qed.

(** With fewer frames the search raises before anything is touched. *)
Lemma load_fragile_frames_short (frames : nat) (t : ref) (pkgs : list Package)
      (st : State) (tr : Truck) :
  heap st !! t = Some tr -> (frames <= length pkgs)%nat ->
  load_fragile_frames frames t pkgs st = (Raise RecursionError, st).
Proof.
  intros Ht Hd. unfold load_fragile_frames, truck_remaining_space.
  cbv beta iota delta [bind get lift ret raise]. rewrite Ht.
  change 0 with (Z.of_nat 0). rewrite try_load_frames_short by lia. reflexivity.
Qed.


(** ** Reserve failures during placement *)




(** ** Faults of the store *)

Lemma load_fragile_log_fault (t : ref) (pkgs : list Package) (p : Package) (ps : list Package)
      (st : State) (tr : Truck) (fs : list bool) :
  heap st !! t = Some tr ->
  try_load pkgs 0 (remaining_space (truck_unit tr)) [] = Ok (true, p :: ps) ->
  db_faults st = true :: fs ->
  load_fragile t pkgs st =
  (Ok (p :: ps),
   mkState (bin_inventory st) (queue_incoming st)
           ((t, p) :: stack_loading st)
           (<[t := truck_after tr (size p)]> (heap st))
           (bin_configuration st) (shipment_logs st) [] fs).
Proof.
  intros Ht Hload Hf. pose proof (try_load_loads_0 _ _ _ Hload) as [Hp _].
  unfold load_fragile, truck_remaining_space. run_m. rewrite Ht. simpl.
  rewrite try_load_0 in Hload. injection Hload as Hload. rewrite Hload. simpl.
  unfold truck_occupy_space. run_m. rewrite Ht. simpl.
  rewrite occupy_space_ok by (unfold remaining_space in Hp; lia). simpl.
  rewrite Hf. simpl. reflexivity.
Qed.

(** C4: there are runs in which a fault of the store aborts the batch
    after memory has been changed, and the change stays.  In
    [process_package], when the write of the audit row faults after the
    bin has taken the package, the bin keeps the added used space while
    the audit batch is rolled back.  In [load_fragile], when the write
    of the first audit row faults, the truck keeps the first package's
    size and the loading stack keeps its entry, while nothing reaches
    the log. *)
Theorem C4_abort_keeps_memory_changes :
  (forall (st : State) (pkg : Package) (q : list Package) (idx : Z) (b : StorageBin)
          (fs : list bool),
      queue_incoming st = pkg :: q ->
      find_best_fit_bin (bin_inventory st) (size pkg) = Ok idx ->
      idx <> -1 ->
      py_getitem (bin_inventory st) idx = Ok b ->
      bin_used b + size pkg <= bin_capacity b ->
      db_faults st = true :: fs ->
      let st' := snd (process_package st) in
      fst (process_package st) = Ok tt /\
      bin_inventory st' =
        bins_after_reserve (bin_inventory st) idx b
          (mkUnit (bin_capacity b) (bin_used b + size pkg)) /\
      shipment_logs st' = shipment_logs st /\
      db_pending st' = []) /\
  (forall (st : State) (t : ref) (tr : Truck) (pkgs : list Package)
          (p : Package) (ps : list Package) (fs : list bool),
      heap st !! t = Some tr ->
      try_load pkgs 0 (remaining_space (truck_unit tr)) [] = Ok (true, p :: ps) ->
      db_faults st = true :: fs ->
      let st' := snd (load_fragile t pkgs st) in
      fst (load_fragile t pkgs st) = Ok (p :: ps) /\
      heap st' !! t = Some (truck_after tr (size p)) /\
      stack_loading st' = (t, p) :: stack_loading st /\
      shipment_logs st' = shipment_logs st /\
      db_pending st' = []) /\
  (exists st st',
      process_package st = (Ok tt, st') /\
      db_faults st = [true] /\
      map bin_used (bin_inventory st) = [0; 0; 0; 0] /\
      map bin_used (bin_inventory st') = [5; 0; 0; 0] /\
      shipment_logs st' = shipment_logs st /\ db_pending st' = []) /\
  (exists st st' chosen,
      load_fragile 0%nat [p1; p3; p5] st = (Ok chosen, st') /\
      db_faults st = [true] /\
      (used_space ∘ truck_unit) <$> heap st !! 0%nat = Some 0 /\
      (used_space ∘ truck_unit) <$> heap st' !! 0%nat = Some 5 /\
      stack_loading st = [] /\
      stack_loading st' = [(0%nat, p1)] /\
      shipment_logs st' = shipment_logs st /\ db_pending st' = []).
Proof.
  split; [| split; [| split]].
  - intros st pkg q idx b fs Hq Hfind Hidx Hget Hfits Hf st'. subst st'.
    rewrite (process_package_log_fault st pkg q idx b fs Hq Hfind Hidx Hget Hfits Hf).
    repeat split; reflexivity.
  - intros st t tr pkgs p ps fs Ht Hload Hf st'. subst st'.
    rewrite (load_fragile_log_fault t pkgs p ps st tr fs Ht Hload Hf). simpl.
    repeat split; try reflexivity. apply lookup_insert_eq.
  - exists (mkState demo_bins [p1] [] ∅ demo [] [] [true]).
    eexists. split; [vm_compute; reflexivity |]. repeat split; reflexivity.
  - exists (st_truck [true]). eexists. eexists.
    split; [vm_compute; reflexivity |]. repeat split; reflexivity.
Qed.

Lemma C4_abort_keeps_memory_changes_witness :
  bin_inventory (snd (process_package (mkState demo_bins [p1] [] ∅ demo [] [] [true]))) =
    bins_after_reserve demo_bins 0 (new_bin 1 10 "A1") (mkUnit 10 5) /\
  stack_loading (snd (load_fragile 0%nat [p1; p3; p5] (st_truck [true]))) = [(0%nat, p1)].
Proof.
  destruct C4_abort_keeps_memory_changes as (Hplace & Hload & _). split.
  - apply (Hplace (mkState demo_bins [p1] [] ∅ demo [] [] [true]) p1 [] 0
                  (new_bin 1 10 "A1") []).
    + reflexivity.
    + vm_compute. reflexivity.
    + discriminate.
    + vm_compute. reflexivity.
    + vm_compute. discriminate.
    + reflexivity.
  - apply (Hload (st_truck [true]) 0%nat (new_truck "T101" 40) [p1; p3; p5] p1 [p3; p5] []).
    + reflexivity.
    + vm_compute. reflexivity.
    + reflexivity.
Defined.

(** ** Rollback *)

Lemma rollback_loop_run (stack : list (ref * Package)) (count : option Z) :
  forall (removed : Z) (st : State),
    stack_loading st = stack ->
    db_faults st = [] ->
    let k := turns count removed (length stack) in
    rollback_loop stack count removed st =
    (Ok tt,
     mkState (bin_inventory st) (queue_incoming st)
             (drop k stack)
             (release_all (take k stack) (heap st))
             (bin_configuration st) (shipment_logs st)
             (db_pending st ++ rollback_rows (take k stack)) []).
Proof.
  induction stack as [|[t pkg] stack IH]; intros removed st Hst Hf k.
  - subst k. simpl length. assert (turns count removed 0 = 0%nat) as ->.
    { unfold turns. destruct count; [lia | reflexivity]. }
    simpl. unfold ret. f_equal. destruct st as [b q s h c l pe f]. simpl in *.
    subst. by rewrite app_nil_r.
  - simpl. destruct (match count with None => true | Some c => removed <? c end) eqn:Hc.
    + assert (k = S (turns count (removed + 1) (length stack))) as Hk.
      { subst k. unfold turns. destruct count as [c|]; [| reflexivity].
        apply Z.ltb_lt in Hc. simpl length. lia. }
      rewrite Hk. unfold truck_free_space. run_m. rewrite Hf. simpl.
      rewrite IH by (simpl; auto). simpl. f_equal. f_equal.
      by rewrite <- app_assoc.
    + assert (k = 0%nat) as ->.
      { subst k. unfold turns. destruct count as [c|]; [| discriminate].
        apply Z.ltb_ge in Hc. lia. }
      simpl. unfold ret. f_equal. destruct st as [b q s h c l pe f]. simpl in *.
      subst. by rewrite app_nil_r.
Qed.

Lemma rollback_run (count : option Z) (st : State) :
  db_faults st = [] ->
  let k := turns count 0 (length (stack_loading st)) in
  rollback count st =
  (Ok tt,
   mkState (bin_inventory st) (queue_incoming st)
           (drop k (stack_loading st))
           (release_all (take k (stack_loading st)) (heap st))
           (bin_configuration st)
           (shipment_logs st ++ db_pending st ++ rollback_rows (take k (stack_loading st)))
           [] []).
Proof.
  intros Hf k. unfold rollback. cbv beta iota delta [try_except bind get].
  rewrite (rollback_loop_run (stack_loading st) count 0 st eq_refl Hf).
  run_m. reflexivity.
Qed.

Lemma rollback_returns (count : option Z) (st : State) :
  fst (rollback count st) = Ok tt.
Proof. apply try_except_rollback_returns. Qed.

(** With nothing on the stack only the connection is touched. *)
Lemma rollback_empty (count : option Z) (st : State) :
  stack_loading st = [] ->
  let st' := snd (rollback count st) in
  bin_inventory st' = bin_inventory st /\
  queue_incoming st' = queue_incoming st /\
  stack_loading st' = [] /\
  heap st' = heap st /\
  (db_pending st = [] -> shipment_logs st' = shipment_logs st) /\
  db_pending st' = [].
Proof.
  intros Hs. unfold rollback. run_m. rewrite Hs. simpl.
  destruct (db_faults st) as [|[] fs]; simpl; repeat split; auto.
  all: intros ->; by rewrite app_nil_r.
Qed.

(** C6: on a healthy store, [rollback(n)] for [n >= 0] pops exactly
    [min(n, len)] entries from the top of the loading stack, newest
    first; for each it frees the package's size on the entry's truck and
    writes a [ROLLBACK] row, in that order, and commits.  [rollback()]
    pops everything.  [rollback] never raises, on any store.  On an
    empty stack it changes neither bins, queue, stack, trucks nor the
    committed log, so calling it twice does nothing twice.  In [main],
    [rollback(1)] after loading sizes 5, 8, 9 pops the size-9 entry. *)
Theorem C6_rollback_pops_newest_first
  (st : State) (n : Z) (Hn : 0 <= n) (Hhealthy : db_faults st = []) :
  let stack := stack_loading st in
  let k := Z.to_nat (Z.min n (Z.of_nat (length stack))) in
  Z.of_nat k = Z.min n (Z.of_nat (length stack)) /\
  rollback (Some n) st =
    (Ok tt,
     mkState (bin_inventory st) (queue_incoming st)
             (drop k stack)
             (release_all (take k stack) (heap st))
             (bin_configuration st)
             (shipment_logs st ++ db_pending st ++ rollback_rows (take k stack))
             [] []) /\
  rollback None st =
    (Ok tt,
     mkState (bin_inventory st) (queue_incoming st)
             []
             (release_all stack (heap st))
             (bin_configuration st)
             (shipment_logs st ++ db_pending st ++ rollback_rows stack)
             [] []) /\
  (forall (count : option Z) (st0 : State), fst (rollback count st0) = Ok tt) /\
  (forall (count : option Z) (st0 : State),
      stack_loading st0 = [] -> db_pending st0 = [] ->
      let st1 := snd (rollback count st0) in
      bin_inventory st1 = bin_inventory st0 /\ queue_incoming st1 = queue_incoming st0 /\
      stack_loading st1 = [] /\ heap st1 = heap st0 /\
      shipment_logs st1 = shipment_logs st0 /\ db_pending st1 = []) /\
  (stack = [] -> db_pending st = [] ->
   forall count count' : option Z,
     rollback count st = (Ok tt, st) /\
     (rollback count ;; rollback count') st = (Ok tt, st)) /\
  (stack_loading st_loaded = [(0%nat, p5); (0%nat, p3); (0%nat, p1)] /\
   let st1 := snd (rollback (Some 1) st_loaded) in
   stack_loading st1 = [(0%nat, p3); (0%nat, p1)] /\
   heap st1 !! 0%nat = Some (mkTruck (mkUnit 40 13) "T101") /\
   shipment_logs st1 = (shipment_logs st_loaded ++ [mkRow "P005" None "ROLLBACK"])%list).
Proof.
  intros stack k.
  split; [subst k; lia |].
  split.
  { pose proof (rollback_run (Some n) st Hhealthy) as Hrun.
    unfold turns in Hrun. rewrite Z.sub_0_r in Hrun. exact Hrun. }
  split.
  { rewrite (rollback_run None st Hhealthy). unfold turns. fold stack.
    by rewrite drop_all, firstn_all. }
  split; [apply rollback_returns |].
  split.
  { intros count st0 Hs Hp.
    destruct (rollback_empty count st0 Hs) as (? & ? & ? & ? & ? & ?). auto 10. }
  split; [| vm_compute; repeat split; reflexivity].
  intros Hs Hp count count'.
  assert (forall c, rollback c st = (Ok tt, st)) as Hnoop.
  { intros c. rewrite (rollback_run c st Hhealthy). fold stack. rewrite Hs.
    assert (turns c 0 (length (@nil (ref * Package))) = 0%nat) as ->.
    { unfold turns. destruct c; simpl; lia. }
    simpl. rewrite Hp. simpl. rewrite app_nil_r.
    destruct st as [b q s h c' l pe f]. simpl in *. subst stack. by subst. }
  split; [apply Hnoop |].
  unfold bind. rewrite Hnoop. apply Hnoop.
Qed.

Lemma C6_rollback_pops_newest_first_witness :
  0 <= 1 /\ db_faults st_loaded = [] /\
  stack_loading (snd (rollback (Some 1) st_loaded)) = [(0%nat, p3); (0%nat, p1)].
Proof.
  split; [lia |]. split; [reflexivity |].
  destruct (C6_rollback_pops_newest_first st_loaded 1 ltac:(lia) eq_refl) as (_ & Hrun & _).
  rewrite Hrun. reflexivity.
Defined.

(** ** The placement run of [main] *)

(** C1 (amended): on a fresh database the bootstrap pool has capacities
    [10,20,50,100], all empty.  Processing sizes [5,12,8,25,9] in FIFO
    order assigns size 5 to the bin of capacity 10, size 12 to the bin
    of capacity 20 and size 25 to the bin of capacity 50, each the best
    fit on nominal capacity.  Sizes 8 and 9 both select the bin of
    capacity 10, which already holds 5: [occupy_space] raises and they
    get no bin and no log row. *)
Theorem C1_main_placement_assignments :
  (exists st0, init [] [] [] = (Ok tt, st0) /\
               map bin_capacity (bin_inventory st0) = [10; 20; 50; 100] /\
               map bin_used (bin_inventory st0) = [0; 0; 0; 0]) /\
  fst main_placement = Ok tt /\
  map (fun p => find_best_fit_bin demo_bins (size p)) [p1; p2; p3; p4; p5] =
    [Ok 0; Ok 1; Ok 0; Ok 2; Ok 0] /\
  map (assigned_capacity (snd main_placement)) main_ids =
    [Some 10; Some 20; None; Some 50; None] /\
  shipment_logs (snd main_placement) =
    [mkRow "P001" (Some 1) "BIN_ASSIGNED";
     mkRow "P002" (Some 2) "BIN_ASSIGNED";
     mkRow "P004" (Some 3) "BIN_ASSIGNED"] /\
  map bin_used (bin_inventory (snd main_placement)) = [5; 12; 25; 0] /\
  queue_incoming (snd main_placement) = [].
Proof.
  split.
  - eexists. split; [vm_compute; reflexivity |]. split; reflexivity.
  - vm_compute. repeat split; reflexivity.
Qed.

(** C1 as stated fails: the run does not assign the five packages to the
    bins of capacity 20, 20, 50, 50, 20. *)
Lemma C1_counterexample :
  map (assigned_capacity (snd main_placement)) main_ids <>
    [Some 20; Some 20; Some 50; Some 50; Some 20].
Proof. vm_compute. discriminate. Qed.

(** ** The invariant of the memory *)

Lemma wf_memory (st st' : State) :
  memory st' = memory st -> wf st -> wf st'.
Proof. unfold memory, wf. intros [= -> -> -> ->]. auto. Qed.

Ltac case_faults :=
  repeat match goal with
         | |- context [match db_faults ?s with [] => _ | _ :: _ => _ end] =>
             destruct (db_faults s) as [|[] ?]; simpl
         | |- context [match ?l with [] => _ | _ :: _ => _ end] =>
             is_var l; destruct l as [|[] ?]; simpl
         end.

Lemma py_getitem_elem_of {A} (l : list A) (i : Z) (x : A) :
  py_getitem l i = Ok x -> x ∈ l.
Proof.
  unfold py_getitem. destruct (_ && _); [| discriminate].
  destruct (l !! _) eqn:E; [| discriminate]. intros [= <-].
  by eapply list_elem_of_lookup_2.
Qed.

(** What [process_package] can do to the memory. *)
Lemma process_package_memory (st : State) :
  memory (snd (process_package st)) = memory st \/
  exists pkg q,
    queue_incoming st = pkg :: q /\
    (memory (snd (process_package st)) =
       (bin_inventory st, q, stack_loading st, heap st) \/
     exists idx b u,
       py_getitem (bin_inventory st) idx = Ok b /\
       occupy_space (bin_unit b) (size pkg) = Ok u /\
       memory (snd (process_package st)) =
         (bins_after_reserve (bin_inventory st) idx b u, q, stack_loading st, heap st)).
Proof.
  unfold process_package. run_m.
  destruct (queue_incoming st) as [|pkg q] eqn:Hq; [by left |].
  right. exists pkg, q. split; [reflexivity |]. simpl.
  destruct (find_best_fit_bin (bin_inventory st) (size pkg)) as [idx | e]; simpl;
    [| by left].
  destruct (idx =? -1); simpl.
  { left. case_faults; reflexivity. }
  destruct (py_getitem (bin_inventory st) idx) as [b | e] eqn:Hget; simpl; [| by left].
  destruct (occupy_space (bin_unit b) (size pkg)) as [u | e] eqn:Hocc; simpl; [| by left].
  right. exists idx, b, u. split; [exact Hget |]. split; [exact Hocc |].
  case_faults; reflexivity.
Qed.

Lemma occupy_space_unit_inv (u u' : StorageUnit) (amount : Z) :
  unit_inv u -> 0 <= amount -> occupy_space u amount = Ok u' -> unit_inv u'.
Proof.
  unfold unit_inv. intros Hu Ha H. apply occupy_space_inv in H as [Hle ->]. simpl. lia.
Qed.

Lemma free_space_unit_inv (u : StorageUnit) (amount : Z) :
  unit_inv u -> 0 <= amount -> unit_inv (free_space u amount).
Proof. unfold unit_inv. simpl. lia. Qed.

Lemma process_package_wf (st : State) :
  wf st -> wf (snd (process_package st)).
Proof.
  intros Hwf. destruct (process_package_memory st) as [Hm | (pkg & q & Hq & Hm)].
  { by eapply wf_memory. }
  destruct Hwf as (Hb & Hqu & Hs & Hh). rewrite Hq in Hqu.
  apply Forall_cons in Hqu as [Hpkg Hqu].
  destruct Hm as [Hm | (idx & b & u & Hget & Hocc & Hm)].
  - unfold wf. injection Hm as -> -> -> ->. auto.
  - unfold wf. injection Hm as -> -> -> ->. split; [| auto].
    unfold bins_after_reserve. apply Forall_insert; [exact Hb |]. simpl.
    apply (occupy_space_unit_inv (bin_unit b) u (size pkg)); auto.
    rewrite Forall_forall in Hb. apply Hb. by eapply py_getitem_elem_of.
Qed.

Lemma add_package_wf (st : State) (p : Package) :
  wf st -> 0 <= size p -> wf (snd (add_package p st)).
Proof.
  intros (Hb & Hq & Hs & Hh) Hp. unfold add_package, modify, wf. simpl.
  split; [exact Hb |]. split; [| auto].
  apply Forall_app. split; [exact Hq | by constructor].
Qed.

(** The loading loop keeps the invariant, whatever the store does. *)
Lemma load_each_wf (t : ref) (s : list Package) :
  forall (st : State) (tr : Truck),
    heap st !! t = Some tr ->
    loads_in_order s (remaining_space (truck_unit tr)) ->
    Forall (fun p => 0 <= size p) s ->
    wf st -> wf (snd (load_each t s st)).
Proof.
  induction s as [|p s IH]; intros st tr Ht Hs Hnn Hwf; simpl; [exact Hwf |].
  destruct Hs as [Hp Hs]. apply Forall_cons in Hnn as [Hpn Hnn].
  unfold truck_occupy_space. run_m. rewrite Ht. simpl.
  rewrite occupy_space_ok by (unfold remaining_space in Hp; lia). simpl.
  assert (wf (set_heap (<[t := truck_after tr (size p)]> (heap st))
                (set_stack_loading ((t, p) :: stack_loading st) st))) as Hwf1.
  { destruct Hwf as (Hb & Hq & Hst & Hh). unfold wf. simpl.
    split; [exact Hb |]. split; [exact Hq |]. split.
    - constructor; [exact Hpn | exact Hst].
    - apply map_Forall_insert_2; [| exact Hh]. unfold truck_after. simpl.
      specialize (Hh t tr Ht). unfold unit_inv, remaining_space in *. simpl in *. lia. }
  destruct (db_faults st) as [|[] fs]; simpl.
  - eapply (IH _ (truck_after tr (size p))).
    + simpl. apply lookup_insert_eq.
    + unfold remaining_space in *. simpl.
      replace (capacity (truck_unit tr) - (used_space (truck_unit tr) + size p))
        with (capacity (truck_unit tr) - used_space (truck_unit tr) - size p) by lia.
      exact Hs.
    + exact Hnn.
    + eapply wf_memory; [| exact Hwf1]. reflexivity.
  - eapply wf_memory; [| exact Hwf1]. reflexivity.
  - eapply (IH _ (truck_after tr (size p))).
    + simpl. apply lookup_insert_eq.
    + unfold remaining_space in *. simpl.
      replace (capacity (truck_unit tr) - (used_space (truck_unit tr) + size p))
        with (capacity (truck_unit tr) - used_space (truck_unit tr) - size p) by lia.
      exact Hs.
    + exact Hnn.
    + eapply wf_memory; [| exact Hwf1]. reflexivity.
Qed.

Lemma try_load_from_sublist (rest : list Package) :
  forall (space : Z) (chosen : list Package),
    exists s, snd (try_load_from rest space chosen) = (chosen ++ s)%list /\ sublist s rest.
Proof.
  induction rest as [|pkg rest IH]; intros space chosen; simpl.
  - exists []. rewrite app_nil_r. split; [reflexivity | constructor].
  - destruct (size pkg <=? space).
    + pose proof (try_load_from_loads rest (space - size pkg) (chosen ++ [pkg])%list) as Hl.
      destruct (IH (space - size pkg) (chosen ++ [pkg])%list) as (s & Hs & Hsub).
      destruct (try_load_from rest (space - size pkg) (chosen ++ [pkg])) as [[] chosen1];
        simpl in *.
      * exists (pkg :: s). rewrite Hs, <- app_assoc. split; [reflexivity |].
        by apply sublist_skip.
      * subst chosen1. rewrite removelast_last.
        destruct (IH space chosen) as (s' & Hs' & Hsub').
        exists s'. split; [exact Hs' | by apply sublist_cons].
    + destruct (IH space chosen) as (s' & Hs' & Hsub').
      exists s'. split; [exact Hs' | by apply sublist_cons].
Qed.

Lemma load_fragile_wf (t : ref) (pkgs : list Package) (st : State) :
  Forall (fun p => 0 <= size p) pkgs ->
  wf st -> wf (snd (load_fragile t pkgs st)).
Proof.
  intros Hnn Hwf. unfold load_fragile, truck_remaining_space.
  cbv beta iota delta [bind get lift ret raise].
  destruct (heap st !! t) as [tr|] eqn:Ht; [| exact Hwf].
  rewrite try_load_0, drop_0.
  pose proof (try_load_from_loads pkgs (remaining_space (truck_unit tr)) []) as Hl.
  destruct (try_load_from_sublist pkgs (remaining_space (truck_unit tr)) [])
    as (s & Hs & Hsub).
  destruct (try_load_from pkgs (remaining_space (truck_unit tr)) []) as [[] chosen];
    simpl in *; [| exact Hwf].
  destruct Hl as (s' & -> & Hload). simpl in Hs. subst s'.
  assert (wf (snd (load_each t s st))) as Hwf'.
  { eapply load_each_wf; eauto. rewrite Forall_forall in Hnn |- *.
    intros x Hx. apply Hnn. eapply elem_of_sublist; eauto. }
  run_m. destruct (load_each t s st) as [[[]|e] st1]; simpl in *.
  - case_faults; (eapply wf_memory; [| exact Hwf']); reflexivity.
  - eapply wf_memory; [| exact Hwf']. reflexivity.
Qed.

Lemma rollback_loop_wf (stack : list (ref * Package)) (count : option Z) :
  forall (removed : Z) (st : State),
    stack_loading st = stack ->
    wf st -> wf (snd (rollback_loop stack count removed st)).
Proof.
  induction stack as [|[t pkg] stack IH]; intros removed st Hst Hwf; simpl; [exact Hwf |].
  destruct (match count with None => true | Some c => removed <? c end); [| exact Hwf].
  unfold truck_free_space. run_m.
  assert (wf (set_heap (release_entry (heap st) (t, pkg)) (set_stack_loading stack st)))
    as Hwf1.
  { destruct Hwf as (Hb & Hq & Hs & Hh). rewrite Hst in Hs.
    apply Forall_cons in Hs as [Hp Hs]. unfold wf. simpl in *.
    split; [exact Hb |]. split; [exact Hq |]. split; [exact Hs |].
    unfold release_entry. simpl. intros t' tr'. rewrite lookup_alter.
    case_decide as Ht'.
    - subst t'. intros (tr & E & ->)%fmap_Some. simpl. apply free_space_unit_inv; [by apply (Hh t tr) | exact Hp].
    - intros E. by apply (Hh t' tr'). }
  destruct (db_faults st) as [|[] fs]; simpl.
  - apply IH; [reflexivity |]. eapply wf_memory; [| exact Hwf1]. reflexivity.
  - eapply wf_memory; [| exact Hwf1]. reflexivity.
  - apply IH; [reflexivity |]. eapply wf_memory; [| exact Hwf1]. reflexivity.
Qed.

Lemma rollback_wf (count : option Z) (st : State) :
  wf st -> wf (snd (rollback count st)).
Proof.
  intros Hwf. unfold rollback. cbv beta iota delta [try_except bind get].
  pose proof (rollback_loop_wf (stack_loading st) count 0 st eq_refl Hwf) as Hwf'.
  destruct (rollback_loop (stack_loading st) count 0 st) as [[[]|e] st1]; simpl in *.
  - run_m. case_faults; (eapply wf_memory; [| exact Hwf']); reflexivity.
  - eapply wf_memory; [| exact Hwf']. reflexivity.
Qed.

(** ** Container laws *)

(** C7: with a non-negative capacity a new unit satisfies
    [0 <= used <= capacity]; [occupy_space] and [free_space] with a
    non-negative amount keep it.  For any amount, a successful
    [occupy_space] leaves [used <= capacity] (it raises whenever the sum
    would exceed the capacity, leaving the unit alone), and
    [free_space] leaves [0 <= used].  The controller keeps the
    invariant on all its bins and trucks: it holds after the bootstrap,
    and [add_package], [process_package], [load_fragile] and [rollback]
    preserve it, on any store, for packages of non-negative size. *)
Theorem C7_container_invariant
  (cap : Z) (u : StorageUnit) (amount : Z)
  (Hcap : 0 <= cap) (Hinv : unit_inv u) (Hamount : 0 <= amount) :
  unit_inv (new_unit cap) /\
  (forall u', occupy_space u amount = Ok u' -> unit_inv u') /\
  unit_inv (free_space u amount) /\
  (forall (u0 u1 : StorageUnit) (a : Z),
      occupy_space u0 a = Ok u1 ->
      used_space u1 <= capacity u1 /\ capacity u1 = capacity u0) /\
  (forall (u0 : StorageUnit) (a : Z),
      used_space u0 + a > capacity u0 ->
      occupy_space u0 a = Raise (ValueError "Not enough space")) /\
  (forall (u0 : StorageUnit) (a : Z),
      0 <= used_space (free_space u0 a) /\
      capacity (free_space u0 a) = capacity u0) /\
  wf (snd (init [] [] [])) /\
  (forall (st : State) (p : Package),
      wf st -> 0 <= size p -> wf (snd (add_package p st))) /\
  (forall st : State, wf st -> wf (snd (process_package st))) /\
  (forall (st : State) (t : ref) (pkgs : list Package),
      Forall (fun p => 0 <= size p) pkgs -> wf st -> wf (snd (load_fragile t pkgs st))) /\
  (forall (st : State) (count : option Z), wf st -> wf (snd (rollback count st))).
Proof.
  split; [unfold unit_inv; simpl; lia |].
  split; [intros u'; by apply occupy_space_unit_inv |].
  split; [by apply free_space_unit_inv |].
  split.
  { intros u0 u1 a H. apply occupy_space_inv in H as [Hle ->]. simpl. lia. }
  split; [intros u0 a H; by apply occupy_space_raise |].
  split; [intros u0 a; simpl; lia |].
  split.
  { assert (init [] [] [] = (Ok tt, mkState demo_bins [] [] ∅ demo [] [] [])) as ->
      by (vm_compute; reflexivity).
    unfold wf. simpl. split; [| split; [| split]].
    - repeat constructor; simpl; lia.
    - constructor.
    - constructor.
    - apply map_Forall_empty. }
  split; [intros st p; apply add_package_wf |].
  split; [apply process_package_wf |].
  split; [intros st t pkgs; apply load_fragile_wf |].
  intros st count. apply rollback_wf.
Qed.

Lemma C7_container_invariant_witness :
  unit_inv (new_unit 10) /\ unit_inv (free_space (mkUnit 10 5) 8) /\
  forall u', occupy_space (mkUnit 10 5) 3 = Ok u' -> unit_inv u'.
Proof.
  assert (unit_inv (mkUnit 10 5)) as Hinv by (unfold unit_inv; simpl; lia).
  destruct (C7_container_invariant 10 (mkUnit 10 5) 8 ltac:(lia) Hinv ltac:(lia))
    as (Hnew & _ & Hfree & _).
  destruct (C7_container_invariant 10 (mkUnit 10 5) 3 ltac:(lia) Hinv ltac:(lia))
    as (_ & Hocc & _).
  auto.
Defined.

(** C8: [occupy_space(amount)] raises exactly when
    [used + amount > capacity]; a raise changes nothing, also seen
    through a truck reference, where the whole state is as before;
    otherwise [used] grows by [amount] and [remaining_space] shrinks by
    it, and on a unit whose [used] is not negative a following
    [free_space(amount)] brings the unit, hence [remaining_space], back. *)
Theorem C8_reserve_release_round_trip
  (u : StorageUnit) (amount : Z) (Hused : 0 <= used_space u) :
  (occupy_space u amount = Raise (ValueError "Not enough space") <->
   used_space u + amount > capacity u) /\
  (forall (st : State) (t : ref) (tr : Truck),
      heap st !! t = Some tr -> truck_unit tr = u ->
      used_space u + amount > capacity u ->
      truck_occupy_space t amount st = (Raise (ValueError "Not enough space"), st)) /\
  (used_space u + amount <= capacity u ->
   exists u',
     occupy_space u amount = Ok u' /\
     capacity u' = capacity u /\
     used_space u' = used_space u + amount /\
     remaining_space u' = capacity u - used_space u - amount /\
     free_space u' amount = u /\
     remaining_space (free_space u' amount) = remaining_space u).
Proof.
  split; [| split].
  - split.
    + unfold occupy_space.
      destruct (Z.gtb_spec (used_space u + amount) (capacity u)); [lia | discriminate].
    + apply occupy_space_raise.
  - intros st t tr Ht Hu Hover. unfold truck_occupy_space. run_m.
    rewrite Ht. simpl. rewrite Hu. by rewrite occupy_space_raise.
  - intros Hfits. eexists. split; [by apply occupy_space_ok |].
    assert (free_space (mkUnit (capacity u) (used_space u + amount)) amount = u) as Hback.
    { unfold free_space. simpl. destruct u as [c us]. simpl in *. f_equal. lia. }
    rewrite Hback. unfold remaining_space. simpl. repeat split; lia.
Qed.

Lemma C8_reserve_release_round_trip_witness :
  0 <= used_space (mkUnit 10 5) /\
  exists u', occupy_space (mkUnit 10 5) 3 = Ok u' /\ free_space u' 3 = mkUnit 10 5.
Proof.
  split; [simpl; lia |].
  destruct (C8_reserve_release_round_trip (mkUnit 10 5) 3 ltac:(simpl; lia))
    as (_ & _ & Hok).
  destruct (Hok ltac:(simpl; lia)) as (u' & Hocc & _ & _ & _ & Hfree & _).
  exists u'. auto.
Defined.

(** * Further properties *)

(** ** The search on any inventory *)

(** The loop without any assumption on the order of the bins: it does
    not leave the list, and what it remembers is a bin that is large
    enough. *)
Lemma find_best_fit_loop_safe (bins : list StorageBin) (pkg_size low high ans : Z) :
  0 <= low -> high < Z.of_nat (length bins) ->
  (ans = -1 \/
   exists b, 0 <= ans < Z.of_nat (length bins) /\
             bins !! Z.to_nat ans = Some b /\ pkg_size <= bin_capacity b) ->
  exists idx,
    find_best_fit_loop bins pkg_size low high ans = Ok idx /\
    (idx = -1 \/
     exists b, 0 <= idx < Z.of_nat (length bins) /\
               bins !! Z.to_nat idx = Some b /\ pkg_size <= bin_capacity b) /\
    ((forall b, b ∈ bins -> bin_capacity b < pkg_size) -> ans = -1 -> idx = -1).
Proof.
  intros Hlow Hhigh Hans.
  funelim (find_best_fit_loop bins pkg_size low high ans).
  - exists ans. auto.
  - destruct (py_getitem_in_range bins ((low + high) / 2)) as (x & _ & Hx).
    { pose proof (Z.div_mod (low + high) 2 ltac:(lia)).
      pose proof (Z.mod_pos_bound (low + high) 2 ltac:(lia)). lia. }
    congruence.
  - pose proof (Z.div_mod (low + high) 2 ltac:(lia)) as Hdm.
    pose proof (Z.mod_pos_bound (low + high) 2 ltac:(lia)) as Hmb.
    destruct (py_getitem_in_range bins ((low + high) / 2)) as (x & Hx & Hx'); [lia |].
    assert (x = b) as -> by congruence.
    apply Z.geb_le in Heq.
    match goal with IH : _ -> _ -> _ -> ex _ |- _ =>
      destruct IH as (idx & Hidx & Hres & _); [lia | lia | |] end.
    { right. exists b. repeat split; try lia; assumption. }
    exists idx. split; [exact Hidx |]. split; [exact Hres |].
    intros Hall _. apply list_elem_of_lookup_2 in Hx. specialize (Hall b Hx). lia.
  - pose proof (Z.div_mod (low + high) 2 ltac:(lia)) as Hdm.
    pose proof (Z.mod_pos_bound (low + high) 2 ltac:(lia)) as Hmb.
    match goal with IH : _ -> _ -> _ -> ex _ |- _ =>
      destruct IH as (idx & Hidx & Hres & Hnone); [lia | lia | exact Hans |] end.
    exists idx. auto.
Qed.

(** X1: on any inventory, sorted or not, [find_best_fit_bin] never
    raises: it returns [-1] or the position of a bin whose capacity is
    at least the size.  It returns [-1] when every capacity is below the
    size, in particular on an empty inventory.  On an unsorted inventory
    it can return [-1] although a bin is large enough. *)
Theorem X1_best_fit_safe_on_any_inventory (bins : list StorageBin) (pkg_size : Z) :
  (exists idx,
      find_best_fit_bin bins pkg_size = Ok idx /\
      (idx = -1 \/
       exists b, 0 <= idx < Z.of_nat (length bins) /\
                 bins !! Z.to_nat idx = Some b /\ pkg_size <= bin_capacity b) /\
      ((forall b, b ∈ bins -> bin_capacity b < pkg_size) -> idx = -1)) /\
  find_best_fit_bin [] pkg_size = Ok (-1) /\
  find_best_fit_bin [new_bin 1 50 "A"; new_bin 2 10 "B"; new_bin 3 10 "C"] 20 = Ok (-1).
Proof.
  split; [| split; reflexivity].
  destruct (find_best_fit_loop_safe bins pkg_size 0 (Z.of_nat (length bins) - 1) (-1))
    as (idx & Hidx & Hres & Hnone); [lia | lia | by left |].
  exists idx. split; [exact Hidx |]. split; [exact Hres |]. auto.
Qed.

Lemma X1_best_fit_safe_on_any_inventory_witness :
  exists idx, find_best_fit_bin [new_bin 1 10 "A1"] 20 = Ok idx /\ idx = -1.
Proof.
  destruct (X1_best_fit_safe_on_any_inventory [new_bin 1 10 "A1"] 20)
    as [(idx & Hidx & _ & Hnone) _].
  exists idx. split; [exact Hidx |]. apply Hnone.
  intros b Hb. apply list_elem_of_singleton in Hb as ->. vm_compute. reflexivity.
Defined.

(** ** The loader never backtracks *)

(** Once something is chosen and the space is not negative, every leaf
    below is accepted: the search goes straight down the include
    branches that fit. *)
Lemma try_load_from_chosen (rest : list Package) :
  forall (space : Z) (chosen : list Package),
    chosen <> [] -> 0 <= space ->
    try_load_from rest space chosen = (true, (chosen ++ greedy_load rest space)%list).
Proof.
  induction rest as [|pkg rest IH]; intros space chosen Hne Hsp; simpl.
  - rewrite app_nil_r. destruct chosen; [contradiction |]. simpl.
    destruct (Z.geb_spec space 0); [reflexivity | lia].
  - destruct (Z.leb_spec (size pkg) space).
    + rewrite IH; [| by destruct chosen | lia]. by rewrite <- app_assoc.
    + by apply IH.
Qed.

Lemma try_load_from_greedy (rest : list Package) :
  forall space : Z,
    try_load_from rest space [] =
    match greedy_load rest space with
    | [] => (false, [])
    | g => (true, g)
    end.
Proof.
  induction rest as [|pkg rest IH]; intros space; simpl; [reflexivity |].
  destruct (Z.leb_spec (size pkg) space).
  - rewrite try_load_from_chosen; [reflexivity | discriminate | lia].
  - apply IH.
Qed.

Lemma greedy_load_nil (rest : list Package) (space : Z) :
  greedy_load rest space = [] <-> Forall (fun p => space < size p) rest.
Proof.
  induction rest as [|p rest IH]; simpl.
  - split; [constructor | reflexivity].
  - destruct (Z.leb_spec (size p) space).
    + split; [discriminate |]. intros Hall. apply Forall_cons in Hall as [Hp _]. lia.
    + rewrite IH. split; [by constructor | intros Hall; by apply Forall_cons in Hall as [_ Hall]].
Qed.

Lemma try_load_greedy (pkgs : list Package) (space : Z) :
  try_load pkgs 0 space [] =
  Ok (match greedy_load pkgs space with
      | [] => (false, [])
      | g => (true, g)
      end).
Proof. rewrite try_load_0, drop_0. by rewrite try_load_from_greedy. Qed.



(** ** Loading and undoing *)

(** What [load_fragile] returns, on any store. *)
Lemma load_fragile_result (t : ref) (pkgs chosen : list Package) (found : bool)
      (st : State) (tr : Truck) :
  heap st !! t = Some tr ->
  try_load pkgs 0 (remaining_space (truck_unit tr)) [] = Ok (found, chosen) ->
  fst (load_fragile t pkgs st) = Ok (if found then chosen else []).
Proof.
  intros Ht Hload. unfold load_fragile, truck_remaining_space.
  cbv beta iota delta [bind get lift ret]. rewrite Ht.
  rewrite try_load_0 in Hload |- *. injection Hload as Hload. rewrite Hload.
  destruct found; simpl; [| reflexivity].
  match goal with |- context [try_except ?b ?h st] =>
    pose proof (try_except_rollback_returns b st) as Hr;
    destruct (try_except b h st) as [[[]|e] st']; simpl in *; [reflexivity | discriminate]
  end.
Qed.

(** On a deep stack, [load_fragile] returns the empty list exactly when
    every candidate is larger than the truck's remaining space, and
    then nothing has happened. *)
Lemma load_fragile_nothing_fits
  (st : State) (t : ref) (tr : Truck) (pkgs : list Package)
  (Ht : heap st !! t = Some tr) :
  (Forall (fun p => remaining_space (truck_unit tr) < size p) pkgs <->
   fst (load_fragile t pkgs st) = Ok []) /\
  (fst (load_fragile t pkgs st) = Ok [] -> snd (load_fragile t pkgs st) = st) /\
  load_fragile t [] st = (Ok [], st).
Proof.
  pose proof (try_load_greedy pkgs (remaining_space (truck_unit tr))) as Hrun.
  assert (try_load pkgs 0 (remaining_space (truck_unit tr)) [] = Ok (false, []) <->
          Forall (fun p => remaining_space (truck_unit tr) < size p) pkgs) as Hnone.
  { rewrite Hrun, <- greedy_load_nil.
    destruct (greedy_load pkgs (remaining_space (truck_unit tr))); split; congruence. }
  assert (Forall (fun p => remaining_space (truck_unit tr) < size p) pkgs <->
          fst (load_fragile t pkgs st) = Ok []) as Hiff.
  { rewrite <- Hnone. split.
    - intros Hload. by rewrite (load_fragile_result t pkgs [] false st tr Ht Hload).
    - intros Hres. rewrite Hrun.
      destruct (greedy_load pkgs (remaining_space (truck_unit tr))) as [|p g] eqn:Hg;
        [reflexivity |].
      rewrite (load_fragile_result t pkgs (p :: g) true st tr Ht Hrun) in Hres.
      discriminate. }
  split; [exact Hiff |]. split.
  - intros Hres. apply Hiff, Hnone in Hres.
    by rewrite (load_fragile_infeasible t pkgs [] st tr Ht Hres).
  - apply (load_fragile_infeasible t [] [] st tr Ht). reflexivity.
Qed.



Lemma release_all_app (l1 l2 : list (ref * Package)) (h : gmap nat Truck) :
  release_all (l1 ++ l2) h = release_all l2 (release_all l1 h).
Proof.
  unfold release_all. revert h. induction l1 as [|e l1 IH]; intros h; simpl; auto.
Qed.







(** ** Composing rollbacks *)

Lemma rollback_rows_app (l1 l2 : list (ref * Package)) :
  rollback_rows (l1 ++ l2) = (rollback_rows l1 ++ rollback_rows l2)%list.
Proof. unfold rollback_rows. apply map_app. Qed.

(** X5: on a healthy store, [rollback(a)] followed by [rollback(b)], for
    [a, b >= 0], leaves exactly the state that one [rollback(a + b)]
    leaves, log included; and [rollback(a)] followed by [rollback()]
    leaves the state of one [rollback()]. *)
Theorem X5_rollback_composes
  (st : State) (a b : Z) (Ha : 0 <= a) (Hb : 0 <= b) (Hhealthy : db_faults st = []) :
  (rollback (Some a) ;; rollback (Some b)) st = rollback (Some (a + b)) st /\
  (rollback (Some a) ;; rollback None) st = rollback None st.
Proof.
  unfold bind. rewrite (rollback_run (Some a) st Hhealthy).
  rewrite (rollback_run (Some (a + b)) st Hhealthy), (rollback_run None st Hhealthy).
  set (stack := stack_loading st).
  set (ka := turns (Some a) 0 (length stack)).
  split.
  - rewrite rollback_run by reflexivity.
    cbn [stack_loading heap bin_inventory queue_incoming bin_configuration
         shipment_logs db_pending db_faults].
    set (kb := turns (Some b) 0 (length (drop ka stack))).
    assert (turns (Some (a + b)) 0 (length stack) = (ka + kb)%nat) as ->.
    { subst ka kb. unfold turns. rewrite length_drop. lia. }
    rewrite drop_drop, <- (take_take_drop stack ka kb), release_all_app, rollback_rows_app.
    rewrite app_nil_l, <- !app_assoc. reflexivity.
  - rewrite rollback_run by reflexivity.
    cbn [stack_loading heap bin_inventory queue_incoming bin_configuration
         shipment_logs db_pending db_faults].
    change (turns None 0 (length (drop ka stack))) with (length (drop ka stack)).
    change (turns None 0 (length stack)) with (length stack).
    rewrite !drop_all, !firstn_all.
    assert (release_all stack (heap st) =
            release_all (drop ka stack) (release_all (take ka stack) (heap st))) as ->
      by (by rewrite <- release_all_app, take_drop).
    assert (rollback_rows stack =
            (rollback_rows (take ka stack) ++ rollback_rows (drop ka stack))%list) as ->
      by (by rewrite <- rollback_rows_app, take_drop).
    rewrite app_nil_l, <- !app_assoc. reflexivity.
Qed.

Lemma X5_rollback_composes_witness :
  (rollback (Some 1) ;; rollback (Some 1)) st_loaded = rollback (Some 2) st_loaded.
Proof.
  apply (X5_rollback_composes st_loaded 1 1); [lia | lia | reflexivity].
Defined.

(** X6: [rollback(count)] with [count <= 0] pops nothing, on any store:
    bins, queue, loading stack and trucks are untouched and no
    [ROLLBACK] row is written; only [rollback()] without a count pops
    everything. *)
Theorem X6_rollback_nonpositive_count
  (st : State) (n : Z) (Hn : n <= 0) :
  fst (rollback (Some n) st) = Ok tt /\
  memory (snd (rollback (Some n) st)) = memory st /\
  (shipment_logs (snd (rollback (Some n) st)) = shipment_logs st \/
   shipment_logs (snd (rollback (Some n) st)) = (shipment_logs st ++ db_pending st)%list) /\
  db_pending (snd (rollback (Some n) st)) = [].
Proof.
  assert (rollback_loop (stack_loading st) (Some n) 0 st = (Ok tt, st)) as Hloop.
  { destruct (stack_loading st) as [|[t pkg] stack]; simpl; [reflexivity |].
    destruct (Z.ltb_spec 0 n); [lia | reflexivity]. }
  unfold rollback. cbv beta iota delta [try_except bind get]. rewrite Hloop.
  run_m. case_faults; repeat split; auto.
Qed.

Lemma X6_rollback_nonpositive_count_witness :
  memory (snd (rollback (Some 0) st_loaded)) = memory st_loaded.
Proof.
  apply (X6_rollback_nonpositive_count st_loaded 0). lia.
Defined.

(** ** The queue *)

Lemma process_package_queue (st : State) :
  queue_incoming (snd (process_package st)) = drop 1 (queue_incoming st).
Proof.
  unfold process_package. run_m.
  destruct (queue_incoming st) as [|pkg q] eqn:Hq; [simpl; by rewrite Hq |]. simpl.
  destruct (find_best_fit_bin (bin_inventory st) (size pkg)) as [idx | e]; simpl;
    [| reflexivity].
  destruct (idx =? -1); simpl; [case_faults; reflexivity |].
  destruct (py_getitem (bin_inventory st) idx) as [b | e]; simpl; [| reflexivity].
  destruct (occupy_space (bin_unit b) (size pkg)) as [u | e]; simpl; [| reflexivity].
  case_faults; reflexivity.
Qed.

Lemma repeat_process_package (n : nat) :
  forall st : State,
    fst (repeat_m n process_package st) = Ok tt /\
    queue_incoming (snd (repeat_m n process_package st)) = drop n (queue_incoming st).
Proof.
  induction n as [|n IH]; intros st; simpl; [by rewrite drop_0 |].
  unfold bind. pose proof (process_package_returns st) as Hret.
  pose proof (process_package_queue st) as Hq.
  destruct (process_package st) as [[[]|e] st1]; simpl in *; [| discriminate].
  destruct (IH st1) as [Hok Hqueue]. split; [exact Hok |].
  rewrite Hqueue, Hq, drop_drop. reflexivity.
Qed.

Lemma for_each_add_package (ps : list Package) :
  forall st : State,
    for_each ps add_package st =
    (Ok tt, set_queue_incoming (queue_incoming st ++ ps) st).
Proof.
  induction ps as [|p ps IH]; intros st; simpl.
  - unfold ret. rewrite app_nil_r. by destruct st.
  - unfold bind, add_package, modify. rewrite IH. simpl.
    by rewrite <- app_assoc.
Qed.

(** X7: the queue is first in, first out, whatever the outcome of the
    placements and whatever the store does.  [add_package] puts packages
    at the back; each [process_package] returns normally and takes
    exactly the package at the front (on an empty queue it changes
    nothing at all).  So after adding [ps] and calling
    [process_package] [n] times, the first [n] packages of the queue are
    gone, in order, and the rest waits. *)
Theorem X7_queue_is_fifo (st : State) (ps : list Package) (n : nat) :
  let st1 := snd (for_each ps add_package st) in
  let st2 := snd (repeat_m n process_package st1) in
  fst (for_each ps add_package st) = Ok tt /\
  queue_incoming st1 = (queue_incoming st ++ ps)%list /\
  fst (repeat_m n process_package st1) = Ok tt /\
  queue_incoming st2 = drop n (queue_incoming st ++ ps) /\
  (queue_incoming st = [] -> process_package st = (Ok tt, st)).
Proof.
  intros st1 st2. subst st1 st2. rewrite for_each_add_package. simpl.
  destruct (repeat_process_package n
              (set_queue_incoming (queue_incoming st ++ ps) st)) as [Hok Hq].
  repeat split; auto. apply process_package_empty.
Qed.

Lemma X7_queue_is_fifo_witness :
  queue_incoming (snd (repeat_m 1 process_package
                         (snd (for_each [p1; p2] add_package (st_truck []))))) = [p2] /\
  process_package (st_truck []) = (Ok tt, st_truck []).
Proof.
  destruct (X7_queue_is_fifo (st_truck []) [p1; p2] 1) as (_ & _ & _ & Hq & Hempty).
  split; [exact Hq | apply Hempty; reflexivity].
Defined.

(** ** Every outcome of a placement *)

(** All the ways [process_package] can end on a non-empty queue, on any
    store: the search itself cannot raise. *)
Lemma process_package_cases (st : State) (pkg : Package) (q : list Package) :
  queue_incoming st = pkg :: q ->
  let st' := snd (process_package st) in
  db_pending st' = [] /\
  ((find_best_fit_bin (bin_inventory st) (size pkg) = Ok (-1) /\
    memory st' = (bin_inventory st, q, stack_loading st, heap st) /\
    (shipment_logs st' = shipment_logs st \/
     shipment_logs st' =
       (shipment_logs st ++ db_pending st ++
          [mkRow (tracking_id pkg) None "NO_BIN"])%list)) \/
   (exists idx b,
       find_best_fit_bin (bin_inventory st) (size pkg) = Ok idx /\
       0 <= idx /\ bin_inventory st !! Z.to_nat idx = Some b /\
       size pkg <= bin_capacity b /\
       ((bin_used b + size pkg > bin_capacity b /\
         memory st' = (bin_inventory st, q, stack_loading st, heap st) /\
         shipment_logs st' = shipment_logs st) \/
        (bin_used b + size pkg <= bin_capacity b /\
         memory st' =
           (bins_after_reserve (bin_inventory st) idx b
              (mkUnit (bin_capacity b) (bin_used b + size pkg)),
            q, stack_loading st, heap st) /\
         (shipment_logs st' = shipment_logs st \/
          shipment_logs st' =
            (shipment_logs st ++ db_pending st ++
               [mkRow (tracking_id pkg) (Some (bin_id b)) "BIN_ASSIGNED"])%list))))).
Proof.
  intros Hq st'. subst st'.
  destruct (find_best_fit_loop_safe (bin_inventory st) (size pkg) 0
              (Z.of_nat (length (bin_inventory st)) - 1) (-1))
    as (idx & Hfind & Hres & _); [lia | lia | by left |].
  fold (find_best_fit_bin (bin_inventory st) (size pkg)) in Hfind.
  unfold process_package. run_m. rewrite Hq. simpl. rewrite Hfind. simpl.
  destruct Hres as [-> | (b & Hrange & Hb & Hcap)].
  - simpl. case_faults; (split; [reflexivity |]); left; auto.
  - destruct (Z.eqb_spec idx (-1)); [lia |].
    destruct (py_getitem_in_range (bin_inventory st) idx Hrange) as (x & Hx & Hget).
    assert (x = b) as -> by congruence. rewrite Hget. simpl.
    destruct (Z.le_gt_cases (bin_used b + size pkg) (bin_capacity b)) as [Hfits | Hfull].
    + rewrite (occupy_space_ok _ _ Hfits). simpl.
      case_faults; (split; [reflexivity |]); right; exists idx, b;
        (split; [reflexivity |]); (split; [lia |]); (split; [exact Hb |]);
        (split; [exact Hcap |]); right; (split; [exact Hfits |]); auto.
    + assert (used_space (bin_unit b) + size pkg > capacity (bin_unit b)) as Hover
        by (unfold bin_used, bin_capacity in Hfull; lia).
      rewrite (occupy_space_raise _ _ Hover). simpl. split; [reflexivity |]. right. exists idx, b.
      split; [reflexivity |]. split; [lia |]. split; [exact Hb |].
      split; [exact Hcap |]. left. split; [lia |]. auto.
Qed.

(** X8: on an inventory sorted by capacity and a healthy store,
    [process_package] sends the package at the front of the queue to the
    leftmost bin among those of capacity at least its size: when no bin
    is large enough it commits one [NO_BIN] row and leaves the bins
    alone; when that bin has room, its used space grows by exactly the
    size, every other position of the inventory is untouched, and one
    [BIN_ASSIGNED] row with that bin's id is committed. *)
Theorem X8_placement_goes_to_best_fit
  (st : State) (pkg : Package) (q : list Package)
  (Hq : queue_incoming st = pkg :: q)
  (Hsorted : sorted_by_capacity (bin_inventory st))
  (Hhealthy : db_faults st = []) :
  let st' := snd (process_package st) in
  ((forall b, b ∈ bin_inventory st -> bin_capacity b < size pkg) ->
   memory st' = (bin_inventory st, q, stack_loading st, heap st) /\
   shipment_logs st' =
     (shipment_logs st ++ db_pending st ++ [mkRow (tracking_id pkg) None "NO_BIN"])%list) /\
  (forall (i : nat) (b : StorageBin),
      bin_inventory st !! i = Some b ->
      size pkg <= bin_capacity b ->
      (forall (j : nat) b', bin_inventory st !! j = Some b' ->
                            size pkg <= bin_capacity b' -> (i <= j)%nat) ->
      bin_used b + size pkg <= bin_capacity b ->
      bin_inventory st' !! i =
        Some (mkBin (mkUnit (bin_capacity b) (bin_used b + size pkg))
                    (bin_id b) (location_code b)) /\
      (forall j : nat, j <> i -> bin_inventory st' !! j = bin_inventory st !! j) /\
      length (bin_inventory st') = length (bin_inventory st) /\
      shipment_logs st' =
        (shipment_logs st ++ db_pending st ++
           [mkRow (tracking_id pkg) (Some (bin_id b)) "BIN_ASSIGNED"])%list).
Proof.
  intros st'. subst st'.
  destruct (find_best_fit_bin_spec (bin_inventory st) (size pkg) Hsorted)
    as (k & Hk & Hrange & Hl & Hr).
  split.
  - intros Hall.
    assert (k = Z.of_nat (length (bin_inventory st))) as ->.
    { destruct (Z.lt_ge_cases k (Z.of_nat (length (bin_inventory st)))) as [Hlt | Hge];
        [| lia].
      destruct (lookup_lt_is_Some_2 (bin_inventory st) (Z.to_nat k) ltac:(lia)) as [b Hb].
      pose proof (Hr _ _ Hb ltac:(lia)).
      apply list_elem_of_lookup_2 in Hb. specialize (Hall b Hb). lia. }
    rewrite Z.ltb_irrefl in Hk.
    rewrite (process_package_no_bin st pkg q Hq Hk Hhealthy). split; reflexivity.
  - intros i b Hb Hcap Hleft Hfits.
    assert (k = Z.of_nat i) as ->.
    { destruct (Z.lt_trichotomy k (Z.of_nat i)) as [Hlt | [Heq | Hgt]]; [| exact Heq |].
      - destruct (lookup_lt_is_Some_2 (bin_inventory st) (Z.to_nat k)) as [b' Hb'].
        { apply lookup_lt_Some in Hb. lia. }
        pose proof (Hr _ _ Hb' ltac:(lia)) as Hcap'.
        specialize (Hleft _ _ Hb' Hcap'). lia.
      - specialize (Hl _ _ Hb Hgt). lia. }
    pose proof (lookup_lt_Some _ _ _ Hb) as Hlen.
    destruct (Z.ltb_spec (Z.of_nat i) (Z.of_nat (length (bin_inventory st)))); [| lia].
    destruct (py_getitem_in_range (bin_inventory st) (Z.of_nat i) ltac:(lia))
      as (x & Hx & Hget).
    rewrite Nat2Z.id in Hx. assert (x = b) as -> by congruence.
    rewrite (process_package_assigned st pkg q (Z.of_nat i) b Hq Hk ltac:(lia) Hget
               Hfits Hhealthy).
    cbn [snd bin_inventory shipment_logs]. unfold bins_after_reserve.
    rewrite Nat2Z.id. split; [by apply list_lookup_insert_eq |].
    split; [intros j Hj; by apply list_lookup_insert_ne |].
    split; [apply length_insert | reflexivity].
Qed.

Lemma X8_placement_goes_to_best_fit_witness :
  bin_inventory
    (snd (process_package (mkState demo_bins [p2] [] ∅ demo [] [] []))) !! 1%nat =
  Some (mkBin (mkUnit 20 12) 2 "A2").
Proof.
  destruct (X8_placement_goes_to_best_fit (mkState demo_bins [p2] [] ∅ demo [] [] [])
              p2 [] eq_refl demo_bins_sorted eq_refl) as [_ Hplace].
  apply (Hplace 1%nat (new_bin 2 20 "A2")).
  - reflexivity.
  - vm_compute. discriminate.
  - intros j b' Hj Hcap. destruct j as [|j]; [| lia].
    injection Hj as <-. vm_compute in Hcap. contradiction.
  - vm_compute. discriminate.
Defined.

(** ** What no operation changes *)

Lemma same_containers_eq (st st1 st2 : State) :
  bin_inventory st2 = bin_inventory st1 -> heap st2 = heap st1 ->
  same_containers st st1 -> same_containers st st2.
Proof. unfold same_containers. intros -> ->. auto. Qed.

Lemma same_containers_insert (st st1 st2 : State) (t : ref) (tr tr' : Truck) :
  bin_inventory st2 = bin_inventory st1 ->
  heap st1 !! t = Some tr ->
  truck_shape tr' = truck_shape tr ->
  heap st2 = <[t := tr']> (heap st1) ->
  same_containers st st1 -> same_containers st st2.
Proof.
  unfold same_containers. intros -> Ht Hshape -> [Hb Hh]. split; [exact Hb |].
  rewrite fmap_insert, Hshape, <- Hh. apply insert_id. by rewrite lookup_fmap, Ht.
Qed.

Lemma same_containers_alter (st st1 st2 : State) (t : ref) (f : Truck -> Truck) :
  bin_inventory st2 = bin_inventory st1 ->
  (forall tr, truck_shape (f tr) = truck_shape tr) ->
  heap st2 = alter f t (heap st1) ->
  same_containers st st1 -> same_containers st st2.
Proof.
  unfold same_containers. intros -> Hshape -> [Hb Hh]. split; [exact Hb |].
  rewrite <- Hh. apply map_eq. intros i. rewrite !lookup_fmap.
  destruct (decide (t = i)) as [<- | Hne].
  - rewrite lookup_alter_eq, <- option_fmap_compose.
    apply option_fmap_ext. intros tr. apply Hshape.
  - by rewrite lookup_alter_ne.
Qed.

Lemma insert_same_shape (bins : list StorageBin) (i : nat) (b b' : StorageBin) :
  bins !! i = Some b -> bin_shape b' = bin_shape b ->
  map bin_shape (<[i := b']> bins) = map bin_shape bins.
Proof.
  intros Hb Hshape. change (map bin_shape) with (fmap (M := list) bin_shape).
  rewrite list_fmap_insert, Hshape. apply list_insert_id. by rewrite list_lookup_fmap, Hb.
Qed.

Lemma load_each_same_containers (t : ref) (s : list Package) :
  forall st0 st : State,
    same_containers st0 st -> same_containers st0 (snd (load_each t s st)).
Proof.
  induction s as [|p s IH]; intros st0 st Hsame; simpl; [exact Hsame |].
  unfold truck_occupy_space. run_m.
  destruct (heap st !! t) as [tr|] eqn:Ht; simpl.
  2:{ eapply same_containers_eq; [| | exact Hsame]; reflexivity. }
  destruct (occupy_space (truck_unit tr) (size p)) as [u|e] eqn:Hocc; simpl.
  2:{ eapply same_containers_eq; [| | exact Hsame]; reflexivity. }
  apply occupy_space_inv in Hocc as [_ ->].
  assert (forall st2, bin_inventory st2 = bin_inventory st ->
                      heap st2 = <[t := truck_after tr (size p)]> (heap st) ->
                      same_containers st0 st2) as Hstep.
  { intros st2 Hb Hh.
    eapply (same_containers_insert st0 st st2 t tr (truck_after tr (size p)));
      [exact Hb | exact Ht | reflexivity | exact Hh | exact Hsame]. }
  destruct (db_faults st) as [|[] fs]; simpl.
  - apply IH, Hstep; reflexivity.
  - apply Hstep; reflexivity.
  - apply IH, Hstep; reflexivity.
Qed.

Lemma rollback_loop_same_containers (stack : list (ref * Package)) (count : option Z) :
  forall (removed : Z) (st0 st : State),
    same_containers st0 st ->
    same_containers st0 (snd (rollback_loop stack count removed st)).
Proof.
  induction stack as [|[t pkg] stack IH]; intros removed st0 st Hsame; simpl;
    [exact Hsame |].
  destruct (match count with None => true | Some c => removed <? c end); [| exact Hsame].
  unfold truck_free_space. run_m.
  assert (forall st2, bin_inventory st2 = bin_inventory st ->
                      heap st2 = release_entry (heap st) (t, pkg) ->
                      same_containers st0 st2) as Hstep.
  { intros st2 Hb Hh. unfold release_entry in Hh.
    eapply (same_containers_alter st0 st st2 t);
      [exact Hb | | exact Hh | exact Hsame]. intros tr. reflexivity. }
  destruct (db_faults st) as [|[] fs]; simpl.
  - apply IH, Hstep; reflexivity.
  - apply Hstep; reflexivity.
  - apply IH, Hstep; reflexivity.
Qed.

Lemma process_package_same_containers (st : State) :
  same_containers st (snd (process_package st)).
Proof.
  destruct (queue_incoming st) as [|pkg q] eqn:Hq.
  { rewrite (process_package_empty st Hq). by split. }
  destruct (process_package_cases st pkg q Hq) as [_ Hcases].
  destruct Hcases as [(_ & Hm & _) | (idx & b & _ & Hidx & Hb & _ & Hcases)].
  - unfold memory in Hm. injection Hm as Hbins _ _ Hheap.
    split; by rewrite ?Hbins, ?Hheap.
  - destruct Hcases as [(_ & Hm & _) | (_ & Hm & _)];
      unfold memory in Hm; injection Hm as Hbins _ _ Hheap;
      (split; [| by rewrite Hheap]); rewrite Hbins; [reflexivity |].
    unfold bins_after_reserve. by eapply insert_same_shape.
Qed.

Lemma load_fragile_same_containers (t : ref) (pkgs : list Package) (st : State) :
  same_containers st (snd (load_fragile t pkgs st)).
Proof.
  unfold load_fragile, truck_remaining_space.
  cbv beta iota delta [bind get lift ret raise].
  destruct (heap st !! t) as [tr|]; [| by split].
  rewrite try_load_0.
  destruct (try_load_from _ _ _) as [[] chosen]; simpl; [| by split].
  pose proof (load_each_same_containers t chosen st st ltac:(by split)) as Hsame.
  run_m. destruct (load_each t chosen st) as [[[]|e] st1]; simpl in *.
  - case_faults; (eapply same_containers_eq; [| | exact Hsame]); reflexivity.
  - eapply same_containers_eq; [| | exact Hsame]; reflexivity.
Qed.

Lemma rollback_same_containers (count : option Z) (st : State) :
  same_containers st (snd (rollback count st)).
Proof.
  unfold rollback. cbv beta iota delta [try_except bind get].
  pose proof (rollback_loop_same_containers (stack_loading st) count 0 st st
                ltac:(by split)) as Hsame.
  destruct (rollback_loop (stack_loading st) count 0 st) as [[[]|e] st1]; simpl in *.
  - run_m. case_faults; (eapply same_containers_eq; [| | exact Hsame]); reflexivity.
  - eapply same_containers_eq; [| | exact Hsame]; reflexivity.
Qed.

Lemma same_containers_sorted (st st' : State) :
  same_containers st st' ->
  sorted_by_capacity (bin_inventory st) -> sorted_by_capacity (bin_inventory st').
Proof.
  intros [Hb _]. unfold sorted_by_capacity.
  assert (forall l, map bin_capacity l = map (fun sh : Z * Z * string => sh.1.2)
                                             (map bin_shape l)) as Hcap.
  { intros l. rewrite map_map. reflexivity. }
  by rewrite !Hcap, Hb.
Qed.

(** X9: no operation of the controller adds, removes, reorders or
    resizes a container, whatever the store does: after [add_package],
    [process_package], [load_fragile] and [rollback] the bins have the
    same ids, capacities and location codes in the same order, and the
    trucks the same ids and capacities.  In particular an inventory
    sorted by capacity stays sorted, so the binary search stays valid
    across placements. *)
Theorem X9_containers_are_fixed (st : State) :
  (forall p, same_containers st (snd (add_package p st))) /\
  same_containers st (snd (process_package st)) /\
  (forall t pkgs, same_containers st (snd (load_fragile t pkgs st))) /\
  (forall count, same_containers st (snd (rollback count st))) /\
  (forall n,
      sorted_by_capacity (bin_inventory st) ->
      sorted_by_capacity (bin_inventory (snd (repeat_m n process_package st)))).
Proof.
  split; [intros p; by split |].
  split; [apply process_package_same_containers |].
  split; [intros t pkgs; apply load_fragile_same_containers |].
  split; [intros count; apply rollback_same_containers |].
  intros n. revert st. induction n as [|n IH]; intros st Hs; simpl; [exact Hs |].
  unfold bind. pose proof (process_package_same_containers st) as Hsame.
  pose proof (process_package_returns st) as Hret.
  destruct (process_package st) as [[[]|e] st1]; simpl in *; [| discriminate].
  apply IH. by eapply same_containers_sorted.
Qed.

Lemma X9_containers_are_fixed_witness :
  sorted_by_capacity
    (bin_inventory (snd (repeat_m 2 process_package
                           (mkState demo_bins [p1; p3] [] ∅ demo [] [] [])))).
Proof.
  destruct (X9_containers_are_fixed (mkState demo_bins [p1; p3] [] ∅ demo [] [] []))
    as (_ & _ & _ & _ & Hsorted).
  apply Hsorted. exact demo_bins_sorted.
Defined.

(** ** The bootstrap *)

Lemma insert_by_capacity_perm (b : StorageBin) (l : list StorageBin) :
  insert_by_capacity b l ≡ₚ b :: l.
Proof.
  induction l as [|c l IH]; simpl; [reflexivity |].
  destruct (bin_capacity b <=? bin_capacity c); [reflexivity |].
  rewrite IH. apply Permutation_swap.
Qed.

Lemma sort_by_capacity_perm (l : list StorageBin) : sort_by_capacity l ≡ₚ l.
Proof.
  induction l as [|b l IH]; simpl; [reflexivity |].
  by rewrite insert_by_capacity_perm, IH.
Qed.

Lemma insert_by_capacity_sorted (b : StorageBin) (l : list StorageBin) :
  sorted_by_capacity l -> sorted_by_capacity (insert_by_capacity b l).
Proof.
  unfold sorted_by_capacity. induction l as [|c l IH]; simpl; intros Hs.
  - repeat constructor.
  - apply StronglySorted_inv in Hs as [Hs Hall].
    destruct (Z.leb_spec (bin_capacity b) (bin_capacity c)) as [Hle | Hgt]; simpl.
    + constructor; [by constructor |]. constructor; [exact Hle |].
      eapply Forall_impl; [exact Hall |]. simpl. intros x Hx. lia.
    + constructor; [by apply IH |].
      assert (Forall (Z.le (bin_capacity c)) (map bin_capacity (b :: l))) as Hall'.
      { constructor; [lia | exact Hall]. }
      rewrite Forall_forall in Hall' |- *. intros x Hx. apply Hall'.
      apply list_elem_of_In in Hx. apply list_elem_of_In.
      apply in_map_iff in Hx as (y & <- & Hy). apply in_map.
      apply list_elem_of_In. rewrite <- (insert_by_capacity_perm b l).
      by apply list_elem_of_In.
Qed.

Lemma sort_by_capacity_sorted (l : list StorageBin) :
  sorted_by_capacity (sort_by_capacity l).
Proof.
  induction l as [|b l IH]; simpl; [constructor |].
  by apply insert_by_capacity_sorted.
Qed.

Lemma insert_by_capacity_filter (c : Z) (b : StorageBin) (l : list StorageBin) :
  List.filter (fun x => bin_capacity x =? c) (insert_by_capacity b l) =
  List.filter (fun x => bin_capacity x =? c) (b :: l).
Proof.
  induction l as [|c0 l IH]; [reflexivity |]. cbn [insert_by_capacity].
  destruct (Z.leb_spec (bin_capacity b) (bin_capacity c0)) as [Hle | Hgt]; [reflexivity |].
  cbn [List.filter] in *. rewrite IH.
  destruct (Z.eqb_spec (bin_capacity b) c), (Z.eqb_spec (bin_capacity c0) c);
    try reflexivity; lia.
Qed.

Lemma sort_by_capacity_stable (c : Z) (l : list StorageBin) :
  List.filter (fun x => bin_capacity x =? c) (sort_by_capacity l) =
  List.filter (fun x => bin_capacity x =? c) l.
Proof.
  induction l as [|b l IH]; [reflexivity |]. cbn [sort_by_capacity foldr].
  change (foldr insert_by_capacity [] l) with (sort_by_capacity l).
  rewrite insert_by_capacity_filter. cbn [List.filter]. by rewrite IH.
Qed.

(** What a successful [load_bins_from_db] leaves, on any store. *)
Lemma load_bins_from_db_ok (st st' : State) :
  load_bins_from_db st = (Ok tt, st') ->
  bin_configuration st' =
    (if (length (bin_configuration st) =? 0)%nat then demo else bin_configuration st) /\
  bin_inventory st' = sort_by_capacity (map bin_of_row (bin_configuration st')) /\
  queue_incoming st' = queue_incoming st /\ stack_loading st' = stack_loading st /\
  heap st' = heap st /\
  (bin_configuration st <> [] ->
   shipment_logs st' = shipment_logs st /\ db_pending st' = db_pending st) /\
  (bin_configuration st = [] ->
   shipment_logs st' = (shipment_logs st ++ db_pending st)%list /\ db_pending st' = []).
Proof.
  unfold load_bins_from_db. destruct st as [b q k h c l pe f].
  destruct c as [|r rows]; destruct f as [|[] [|[] [|[] [|[] fs]]]]; run_m;
    intros Heq; try discriminate Heq; injection Heq as <-; simpl;
    repeat split; try reflexivity; congruence.
Qed.

(** X10: when [load_bins_from_db] succeeds, the inventory consists of
    exactly the bins of the table rows, all empty, sorted ascending by
    capacity (no later bin is [<] an earlier one), with rows of equal
    capacity kept in table order; whatever used space the previous
    inventory recorded is gone. *)
Theorem X10_bootstrap_sorts_the_table
  (st st' : State) (Hload : load_bins_from_db st = (Ok tt, st')) :
  sorted_by_capacity (bin_inventory st') /\
  bin_inventory st' ≡ₚ map bin_of_row (bin_configuration st') /\
  Forall (fun b => bin_used b = 0) (bin_inventory st') /\
  (forall c : Z,
      List.filter (fun x => bin_capacity x =? c) (bin_inventory st') =
      List.filter (fun x => bin_capacity x =? c)
                  (map bin_of_row (bin_configuration st'))) /\
  (forall (i j : nat) (bi bj : StorageBin),
      bin_inventory st' !! i = Some bi -> bin_inventory st' !! j = Some bj ->
      (i <= j)%nat -> bin_lt bj bi = false).
Proof.
  apply load_bins_from_db_ok in Hload as (_ & Hbins & _). rewrite Hbins.
  pose proof (sort_by_capacity_sorted (map bin_of_row (bin_configuration st'))) as Hs.
  split; [exact Hs |]. split; [apply sort_by_capacity_perm |].
  split; [| split; [intros c; apply sort_by_capacity_stable |]].
  - rewrite sort_by_capacity_perm. apply Forall_forall. intros b Hb.
    apply list_elem_of_In, in_map_iff in Hb as (r & <- & _). reflexivity.
  - intros i j bi bj Hi Hj Hij. unfold bin_lt. apply Z.ltb_ge.
    by eapply sorted_by_capacity_lookup.
Qed.

Lemma X10_bootstrap_sorts_the_table_witness :
  sorted_by_capacity
    (bin_inventory
       (snd (load_bins_from_db
               (mkState [] [] [] ∅ [(7, 50, "Z"); (8, 10, "Y"); (9, 50, "X")] [] [] [])))).
Proof.
  apply (X10_bootstrap_sorts_the_table
           (mkState [] [] [] ∅ [(7, 50, "Z"); (8, 10, "Y"); (9, 50, "X")] [] [] [])).
  vm_compute. reflexivity.
Defined.

Lemma load_bins_from_db_run (st : State) :
  db_faults st = [] ->
  let cfg := if (length (bin_configuration st) =? 0)%nat
             then demo else bin_configuration st in
  load_bins_from_db st =
  (Ok tt,
   mkState (sort_by_capacity (map bin_of_row cfg)) (queue_incoming st)
           (stack_loading st) (heap st) cfg
           (if (length (bin_configuration st) =? 0)%nat
            then (shipment_logs st ++ db_pending st)%list else shipment_logs st)
           (if (length (bin_configuration st) =? 0)%nat then [] else db_pending st)
           []).
Proof.
  intros Hf. unfold load_bins_from_db. run_m.
  destruct st as [b q k h c l pe f]. simpl in *. subst f.
  destruct c as [|r rows]; reflexivity.
Qed.

(** X11: [load_bins_from_db] on a healthy store writes the four demo
    rows into an empty table and leaves a non-empty table as it is, so
    the rows are inserted once: running it again changes nothing. *)
Theorem X11_demo_rows_inserted_once (st : State) (Hhealthy : db_faults st = []) :
  let st1 := snd (load_bins_from_db st) in
  fst (load_bins_from_db st) = Ok tt /\
  (bin_configuration st = [] ->
   bin_configuration st1 = demo /\
   map bin_capacity (bin_inventory st1) = [10; 20; 50; 100]) /\
  (bin_configuration st <> [] -> bin_configuration st1 = bin_configuration st) /\
  load_bins_from_db st1 = (Ok tt, st1).
Proof.
  intros st1. subst st1. rewrite (load_bins_from_db_run st Hhealthy). cbn [fst snd].
  split; [reflexivity |].
  split; [intros ->; split; reflexivity |].
  split; [intros Hne; by destruct (bin_configuration st) |].
  rewrite load_bins_from_db_run by reflexivity.
  cbn [bin_inventory queue_incoming stack_loading heap bin_configuration
       shipment_logs db_pending db_faults].
  by destruct (bin_configuration st).
Qed.

Lemma X11_demo_rows_inserted_once_witness :
  bin_configuration (snd (load_bins_from_db (mkState [] [] [] ∅ [] [] [] []))) = demo.
Proof.
  destruct (X11_demo_rows_inserted_once (mkState [] [] [] ∅ [] [] [] []) eq_refl)
    as (_ & Hempty & _).
  by apply Hempty.
Defined.

(** X12: the constructor refuses to run when the singleton exists, before
    it touches anything.  Otherwise it has no [try]: a fault of the
    store during [connect], [setup_database] or [load_bins_from_db]
    leaves [__init__] with the exception.  It calls the store six times
    when the table already has rows (connect, two [CREATE TABLE], a
    commit and the two queries) and eight times when it is empty (the
    insertion of the demo rows and its commit come on top); it succeeds
    exactly when none of these calls faults, and then the log table is
    as it was found and nothing is pending. *)
Theorem X12_constructor_propagates_faults
  (instance : bool) (cfg : list (Z * Z * string)) (logs : list LogRow)
  (faults : list bool) :
  let k := if (length cfg =? 0)%nat then 8%nat else 6%nat in
  (instance = true ->
   controller_new instance cfg logs faults =
     (Raise (PyException "Use get_instance(), not direct create"),
      mkState [] [] [] ∅ cfg logs [] faults)) /\
  (instance = false -> In true (take k faults) ->
   fst (controller_new instance cfg logs faults) = Raise DbError) /\
  (instance = false -> ~ In true (take k faults) ->
   fst (controller_new instance cfg logs faults) = Ok tt /\
   shipment_logs (snd (controller_new instance cfg logs faults)) = logs /\
   db_pending (snd (controller_new instance cfg logs faults)) = [] /\
   db_faults (snd (controller_new instance cfg logs faults)) = drop k faults).
Proof.
  destruct instance; cbn zeta.
  { split; [reflexivity |]. split; discriminate. }
  split; [discriminate |].
  unfold controller_new, init, setup_database, load_bins_from_db. run_m.
  destruct cfg as [|r rows]; simpl;
    repeat match goal with
           | |- context [match ?fs with [] => _ | _ :: _ => _ end] =>
               is_var fs; destruct fs as [|[] fs]; simpl
           end;
    (split; intros _ H;
     [ try reflexivity; exfalso; intuition congruence
     | try (exfalso; apply H; intuition congruence);
       repeat split; rewrite ?app_nil_r; reflexivity ]).
Qed.

Lemma X12_constructor_propagates_faults_witness :
  fst (controller_new true [] [] []) =
    Raise (PyException "Use get_instance(), not direct create") /\
  fst (controller_new false [] []
         [false; false; false; false; false; false; false; true]) = Raise DbError /\
  fst (controller_new false demo [] [false; false; false; false; false; false; true]) =
    Ok tt.
Proof.
  split; [| split].
  - destruct (X12_constructor_propagates_faults true [] [] []) as [Hguard _].
    by rewrite (Hguard eq_refl).
  - apply (X12_constructor_propagates_faults false [] []
             [false; false; false; false; false; false; false; true]);
      [reflexivity |].
    simpl. tauto.
  - apply (X12_constructor_propagates_faults false demo []
             [false; false; false; false; false; false; true]); [reflexivity |].
    simpl. intuition discriminate.
Defined.

(** ** The audit log is written in whole batches *)

Lemma load_each_log (t : ref) (s : list Package) :
  forall st : State,
    shipment_logs (snd (load_each t s st)) = shipment_logs st /\
    (fst (load_each t s st) = Ok tt ->
     db_pending (snd (load_each t s st)) = (db_pending st ++ loaded_rows s)%list).
Proof.
  induction s as [|p s IH]; intros st; simpl.
  - split; [reflexivity | intros _; by rewrite app_nil_r].
  - unfold truck_occupy_space. run_m.
    destruct (heap st !! t) as [tr|]; simpl; [| split; [reflexivity | discriminate]].
    destruct (occupy_space (truck_unit tr) (size p)) as [u|e]; simpl;
      [| split; [reflexivity | discriminate]].
    destruct (db_faults st) as [|[] fs]; simpl;
      try (split; [reflexivity | discriminate]).
    all: match goal with |- context [load_each _ _ ?st1] =>
           destruct (IH st1) as [Hl Hp]; rewrite Hl; split; [reflexivity |];
           intros Hok; rewrite (Hp Hok); simpl; by rewrite <- app_assoc
         end.
Qed.

Lemma rollback_loop_log (stack : list (ref * Package)) (count : option Z) :
  forall (removed : Z) (st : State),
    let r := rollback_loop stack count removed st in
    shipment_logs (snd r) = shipment_logs st /\
    (fst r = Ok tt ->
     db_pending (snd r) =
       (db_pending st ++
          rollback_rows (take (turns count removed (length stack)) stack))%list).
Proof.
  induction stack as [|[t pkg] stack IH]; intros removed st r; subst r.
  - simpl. split; [reflexivity |]. intros _.
    assert (turns count removed 0 = 0%nat) as ->
      by (unfold turns; destruct count; lia).
    simpl. by rewrite app_nil_r.
  - cbn [rollback_loop].
    destruct (match count with None => true | Some c => removed <? c end) eqn:Hc.
    + assert (turns count removed (length ((t, pkg) :: stack)) =
              S (turns count (removed + 1) (length stack))) as ->.
      { unfold turns. destruct count as [c|]; [| reflexivity].
        apply Z.ltb_lt in Hc. simpl length. lia. }
      unfold truck_free_space. run_m.
      destruct (db_faults st) as [|[] fs]; simpl;
        try (split; [reflexivity | discriminate]).
      all: match goal with |- context [rollback_loop _ _ _ ?st1] =>
             destruct (IH (removed + 1) st1) as [Hl Hp]; rewrite Hl;
             split; [reflexivity |];
             intros Hok; rewrite (Hp Hok); simpl; by rewrite <- app_assoc
           end.
    + assert (turns count removed (length ((t, pkg) :: stack)) = 0%nat) as ->.
      { unfold turns. destruct count as [c|]; [| discriminate].
        apply Z.ltb_ge in Hc. lia. }
      simpl. split; [reflexivity |]. intros _. by rewrite app_nil_r.
Qed.

(** On a deep stack, [load_fragile] commits a whole batch or nothing. *)
Lemma load_fragile_log (st : State) (t : ref) (tr : Truck) (pkgs chosen : list Package) :
  heap st !! t = Some tr ->
  fst (load_fragile t pkgs st) = Ok chosen ->
  (chosen <> [] -> db_pending (snd (load_fragile t pkgs st)) = []) /\
  (shipment_logs (snd (load_fragile t pkgs st)) = shipment_logs st \/
   shipment_logs (snd (load_fragile t pkgs st)) =
     (shipment_logs st ++ db_pending st ++ loaded_rows chosen)%list).
Proof.
  intros Ht Hres. revert Hres.
  unfold load_fragile, truck_remaining_space.
  cbv beta iota delta [bind get lift ret raise]. rewrite Ht, try_load_0.
  destruct (try_load_from _ _ _) as [[] chosen0]; simpl.
  2:{ intros [= <-]. split; [congruence | by left]. }
  destruct (load_each_log t chosen0 st) as [Hl Hp].
  run_m. destruct (load_each t chosen0 st) as [[[]|e] st1]; simpl in *.
  - specialize (Hp eq_refl).
    case_faults; intros [= <-]; (split; [reflexivity |]); rewrite ?Hl, ?Hp;
      auto.
  - intros [= <-]. split; [reflexivity | by left].
Qed.

(** X13: the committed log only ever grows by whole batches, whatever
    the store does.  After [process_package] it is as before or has
    gained the pending rows and the one row of the package; after
    [load_fragile] it is as before or has gained the pending rows and a
    [TRUCK_LOADED] row for every returned package; after
    [rollback(count)] it is as before or has gained the pending rows and
    a [ROLLBACK] row for every entry that the count asks for.  An
    operation that gets to its [try] leaves no row pending:
    [process_package] on a non-empty queue, [load_fragile] with a
    non-empty selection, and every [rollback].  The others leave the
    whole state, rows pending included, as it was: [process_package] on
    an empty queue, [load_fragile] when it returns the empty list, and
    [load_fragile] when it raises, which is the [RecursionError] of the
    search. *)
Theorem X13_log_grows_by_whole_batches (st : State) :
  (queue_incoming st = [] -> process_package st = (Ok tt, st)) /\
  (forall frames t tr pkgs e,
      heap st !! t = Some tr ->
      fst (load_fragile_frames frames t pkgs st) = Raise e ->
      e = RecursionError /\ snd (load_fragile_frames frames t pkgs st) = st) /\
  (forall frames t tr pkgs,
      heap st !! t = Some tr ->
      fst (load_fragile_frames frames t pkgs st) = Ok [] ->
      snd (load_fragile_frames frames t pkgs st) = st) /\
  (forall pkg q,
      queue_incoming st = pkg :: q ->
      let st' := snd (process_package st) in
      db_pending st' = [] /\
      (shipment_logs st' = shipment_logs st \/
       exists bid status,
         shipment_logs st' =
           (shipment_logs st ++ db_pending st ++
              [mkRow (tracking_id pkg) bid status])%list)) /\
  (forall frames t tr pkgs chosen,
      heap st !! t = Some tr ->
      fst (load_fragile_frames frames t pkgs st) = Ok chosen ->
      let st' := snd (load_fragile_frames frames t pkgs st) in
      (chosen <> [] -> db_pending st' = []) /\
      (shipment_logs st' = shipment_logs st \/
       shipment_logs st' =
         (shipment_logs st ++ db_pending st ++ loaded_rows chosen)%list)) /\
  (forall count,
      let st' := snd (rollback count st) in
      db_pending st' = [] /\
      (shipment_logs st' = shipment_logs st \/
       shipment_logs st' =
         (shipment_logs st ++ db_pending st ++
            rollback_rows (take (turns count 0 (length (stack_loading st)))
                                (stack_loading st)))%list)).
Proof.
  assert (forall frames t tr pkgs,
             heap st !! t = Some tr ->
             ((length pkgs < frames)%nat /\
              load_fragile_frames frames t pkgs st = load_fragile t pkgs st) \/
             load_fragile_frames frames t pkgs st = (Raise RecursionError, st)) as Hframes.
  { intros frames t tr pkgs Ht. destruct (decide (length pkgs < frames)%nat) as [Hd | Hd].
    - left. split; [exact Hd | by apply load_fragile_frames_enough].
    - right. eapply load_fragile_frames_short; [exact Ht | lia]. }
  split; [apply process_package_empty |]. split; [| split; [| split; [| split]]].
  - intros frames t tr pkgs e Ht Hres.
    destruct (Hframes frames t tr pkgs Ht) as [[_ Heq] | Heq]; rewrite Heq in Hres |- *.
    + destruct (load_fragile_returns t pkgs st tr Ht) as [chosen Hok]. congruence.
    + simpl in Hres. split; [congruence | reflexivity].
  - intros frames t tr pkgs Ht Hres.
    destruct (Hframes frames t tr pkgs Ht) as [[_ Heq] | Heq]; rewrite Heq in Hres |- *.
    + by apply (load_fragile_nothing_fits st t tr pkgs Ht).
    + reflexivity.
  - intros pkg q Hq st'. subst st'.
    destruct (process_package_cases st pkg q Hq) as [Hp Hcases].
    split; [exact Hp |].
    destruct Hcases as [(_ & _ & [Hl | Hl]) | (idx & b & _ & _ & _ & _ & Hcases)];
      [by left | right; eauto | ].
    destruct Hcases as [(_ & _ & Hl) | (_ & _ & [Hl | Hl])];
      [by left | by left | right; eauto].
  - intros frames t tr pkgs chosen Ht Hres st'. subst st'.
    destruct (Hframes frames t tr pkgs Ht) as [[_ Heq] | Heq]; rewrite Heq in Hres |- *.
    + by apply (load_fragile_log st t tr pkgs chosen Ht).
    + discriminate Hres.
  - intros count st'. subst st'. unfold rollback.
    cbv beta iota delta [try_except bind get].
    destruct (rollback_loop_log (stack_loading st) count 0 st) as [Hl Hp].
    destruct (rollback_loop (stack_loading st) count 0 st) as [[[]|e] st1]; simpl in *.
    + specialize (Hp eq_refl). run_m.
      case_faults; (split; [reflexivity |]); rewrite ?Hl, ?Hp; auto.
    + split; [reflexivity | by left].
Qed.

Lemma X13_log_grows_by_whole_batches_witness :
  shipment_logs (snd (load_fragile_frames 4 0%nat [p1; p3; p5] (st_truck [false; true])))
    = [] /\
  shipment_logs (snd (load_fragile_frames 4 0%nat [p1; p3; p5] (st_truck []))) =
    loaded_rows [p1; p3; p5].
Proof.
  destruct (X13_log_grows_by_whole_batches (st_truck [false; true]))
    as (_ & _ & _ & _ & Hload & _).
  destruct (Hload 4%nat 0%nat (new_truck "T101" 40) [p1; p3; p5] [p1; p3; p5] eq_refl)
    as [_ Hlog]; [vm_compute; reflexivity |].
  split; [| vm_compute; reflexivity].
  destruct Hlog as [Hlog | Hlog]; [exact Hlog |].
  vm_compute in Hlog. discriminate Hlog.
Defined.

(** ** The loading stack is backed by the trucks *)

Lemma ledger_sum_cons (t t0 : ref) (p : Package) (stack : list (ref * Package)) :
  ledger_sum t ((t0, p) :: stack) =
  if Nat.eqb t0 t then size p + ledger_sum t stack else ledger_sum t stack.
Proof. reflexivity. Qed.

Lemma ledger_sum_nonneg (t : ref) (stack : list (ref * Package)) :
  Forall (fun e : ref * Package => 0 <= size e.2) stack -> 0 <= ledger_sum t stack.
Proof.
  induction 1 as [|[t0 p] stack Hp _ IH]; simpl; [lia |].
  destruct (Nat.eqb t0 t); simpl in *; lia.
Qed.

Lemma ledger_backed_eq (st st' : State) :
  stack_loading st' = stack_loading st -> heap st' = heap st ->
  ledger_backed st -> ledger_backed st'.
Proof. unfold ledger_backed. intros -> ->. auto. Qed.

Lemma process_package_frame (st : State) :
  stack_loading (snd (process_package st)) = stack_loading st /\
  heap (snd (process_package st)) = heap st.
Proof.
  unfold process_package. run_m.
  destruct (queue_incoming st) as [|pkg q]; [by split |]. simpl.
  destruct (find_best_fit_bin (bin_inventory st) (size pkg)) as [idx | e]; simpl;
    [| by split].
  destruct (idx =? -1); simpl; [case_faults; by split |].
  destruct (py_getitem (bin_inventory st) idx) as [b | e]; simpl; [| by split].
  destruct (occupy_space (bin_unit b) (size pkg)) as [u | e]; simpl; [| by split].
  case_faults; by split.
Qed.

Lemma load_each_ledger (t : ref) (s : list Package) :
  forall (st : State) (tr : Truck),
    heap st !! t = Some tr ->
    loads_in_order s (remaining_space (truck_unit tr)) ->
    ledger_backed st -> ledger_backed (snd (load_each t s st)).
Proof.
  induction s as [|p s IH]; intros st tr Ht Hs Hback; simpl; [exact Hback |].
  destruct Hs as [Hp Hs]. unfold truck_occupy_space. run_m. rewrite Ht. simpl.
  rewrite occupy_space_ok by (unfold remaining_space in Hp; lia). simpl.
  assert (forall st2,
             stack_loading st2 = (t, p) :: stack_loading st ->
             heap st2 = <[t := truck_after tr (size p)]> (heap st) ->
             ledger_backed st2) as Hstep.
  { intros st2 Hst Hh t' tr'. rewrite Hst, Hh, ledger_sum_cons.
    destruct (Nat.eqb_spec t t') as [<- | Hne].
    - rewrite lookup_insert_eq. intros [= <-]. simpl.
      specialize (Hback t tr Ht). lia.
    - rewrite lookup_insert_ne by exact Hne. apply Hback. }
  assert (loads_in_order s (remaining_space (truck_unit (truck_after tr (size p)))))
    as Hs'.
  { unfold remaining_space in *. simpl.
    replace (capacity (truck_unit tr) - (used_space (truck_unit tr) + size p))
      with (capacity (truck_unit tr) - used_space (truck_unit tr) - size p) by lia.
    exact Hs. }
  destruct (db_faults st) as [|[] fs]; simpl.
  - eapply IH; [simpl; apply lookup_insert_eq | exact Hs' | apply Hstep; reflexivity].
  - apply Hstep; reflexivity.
  - eapply IH; [simpl; apply lookup_insert_eq | exact Hs' | apply Hstep; reflexivity].
Qed.

Lemma load_fragile_ledger (t : ref) (pkgs : list Package) (st : State) :
  ledger_backed st -> ledger_backed (snd (load_fragile t pkgs st)).
Proof.
  intros Hback. unfold load_fragile, truck_remaining_space.
  cbv beta iota delta [bind get lift ret raise].
  destruct (heap st !! t) as [tr|] eqn:Ht; [| exact Hback].
  rewrite try_load_0, drop_0.
  pose proof (try_load_from_loads pkgs (remaining_space (truck_unit tr)) []) as Hl.
  destruct (try_load_from pkgs (remaining_space (truck_unit tr)) []) as [[] chosen];
    simpl in *; [| exact Hback].
  destruct Hl as (s & -> & Hload). simpl.
  pose proof (load_each_ledger t s st tr Ht Hload Hback) as Hback'.
  run_m. destruct (load_each t s st) as [[[]|e] st1]; simpl in *.
  - case_faults; (eapply ledger_backed_eq; [| | exact Hback']); reflexivity.
  - eapply ledger_backed_eq; [| | exact Hback']; reflexivity.
Qed.

Lemma rollback_loop_ledger (stack : list (ref * Package)) (count : option Z) :
  forall (removed : Z) (st : State),
    stack_loading st = stack ->
    ledger_backed st -> ledger_backed (snd (rollback_loop stack count removed st)).
Proof.
  induction stack as [|[t pkg] stack IH]; intros removed st Hst Hback; simpl;
    [exact Hback |].
  destruct (match count with None => true | Some c => removed <? c end); [| exact Hback].
  unfold truck_free_space. run_m.
  assert (forall st2,
             stack_loading st2 = stack ->
             heap st2 = release_entry (heap st) (t, pkg) ->
             ledger_backed st2) as Hstep.
  { intros st2 Hst2 Hh t' tr'. rewrite Hst2, Hh. unfold release_entry. simpl.
    pose proof (Hback t') as Hb. rewrite Hst, ledger_sum_cons in Hb.
    destruct (Nat.eqb_spec t t') as [<- | Hne].
    - rewrite lookup_alter_eq. intros (tr0 & Htr0 & ->)%fmap_Some. simpl.
      specialize (Hb tr0 Htr0). lia.
    - rewrite lookup_alter_ne by exact Hne. apply Hb. }
  destruct (db_faults st) as [|[] fs]; simpl.
  - apply IH; [reflexivity | apply Hstep; reflexivity].
  - apply Hstep; reflexivity.
  - apply IH; [reflexivity | apply Hstep; reflexivity].
Qed.

Lemma rollback_ledger (count : option Z) (st : State) :
  ledger_backed st -> ledger_backed (snd (rollback count st)).
Proof.
  intros Hback. unfold rollback. cbv beta iota delta [try_except bind get].
  pose proof (rollback_loop_ledger (stack_loading st) count 0 st eq_refl Hback) as Hback'.
  destruct (rollback_loop (stack_loading st) count 0 st) as [[[]|e] st1]; simpl in *.
  - run_m. case_faults; (eapply ledger_backed_eq; [| | exact Hback']); reflexivity.
  - eapply ledger_backed_eq; [| | exact Hback']; reflexivity.
Qed.

(** Releasing entries that the trucks back takes off exactly their
    sizes: the floor at zero of [free_space] is not reached. *)
Lemma release_all_exact (entries : list (ref * Package)) :
  forall h : gmap nat Truck,
    Forall (fun e : ref * Package => 0 <= size e.2) entries ->
    (forall t tr, h !! t = Some tr -> ledger_sum t entries <= used_space (truck_unit tr)) ->
    forall t tr,
      h !! t = Some tr ->
      release_all entries h !! t =
      Some (mkTruck (mkUnit (capacity (truck_unit tr))
                            (used_space (truck_unit tr) - ledger_sum t entries))
                    (truck_id tr)).
Proof.
  induction entries as [|[t0 p] entries IH]; intros h Hnn Hback t tr Ht.
  - simpl. rewrite Ht. destruct tr as [[cap used] id]. simpl. by rewrite Z.sub_0_r.
  - apply Forall_cons in Hnn as [Hp Hnn]. simpl in Hp.
    change (release_all ((t0, p) :: entries) h)
      with (release_all entries (release_entry h (t0, p))).
    pose proof (ledger_sum_nonneg t entries Hnn) as Hsum.
    pose proof (Hback t tr Ht) as Hb. rewrite ledger_sum_cons in Hb |- *.
    assert (forall t' tr', release_entry h (t0, p) !! t' = Some tr' ->
                           ledger_sum t' entries <= used_space (truck_unit tr')) as Hback'.
    { intros t' tr'. unfold release_entry. simpl.
      pose proof (Hback t') as Hb'. rewrite ledger_sum_cons in Hb'.
      destruct (Nat.eqb_spec t0 t') as [<- | Hne].
      - rewrite lookup_alter_eq. intros (tr0 & Htr0 & ->)%fmap_Some. simpl.
        specialize (Hb' tr0 Htr0). lia.
      - rewrite lookup_alter_ne by exact Hne. apply Hb'. }
    unfold release_entry in *. simpl in *.
    destruct (Nat.eqb_spec t0 t) as [<- | Hne].
    + erewrite IH; [| exact Hnn | exact Hback' | by rewrite lookup_alter_eq, Ht].
      simpl. do 3 f_equal. lia.
    + erewrite IH; [| exact Hnn | exact Hback' | by rewrite lookup_alter_ne].
      reflexivity.
Qed.

Lemma ledger_sum_take_le (t : ref) (k : nat) (stack : list (ref * Package)) :
  Forall (fun e : ref * Package => 0 <= size e.2) stack ->
  ledger_sum t (take k stack) <= ledger_sum t stack.
Proof.
  revert k. induction stack as [|[t0 p] stack IH]; intros k Hnn.
  - by destruct k.
  - apply Forall_cons in Hnn as [Hp Hnn]. simpl in Hp. destruct k as [|k].
    + simpl take. pose proof (ledger_sum_nonneg t ((t0, p) :: stack)) as H0.
      simpl in *. apply H0. by constructor.
    + simpl take. rewrite !ledger_sum_cons. specialize (IH k Hnn).
      destruct (Nat.eqb t0 t); lia.
Qed.

(** X14: every truck holds at least the sizes that the loading stack
    records for it, and [add_package], [process_package],
    [load_fragile] and [rollback] keep it so, whatever the store does
    (a fault may lose the audit rows, never the match between stack and
    trucks).  Hence, for recorded sizes that are not negative, a
    [rollback] on a healthy store takes exactly the popped sizes off
    each truck: the floor at zero of [free_space] is never reached. *)
Theorem X14_stack_is_backed_by_trucks (st : State) (Hback : ledger_backed st) :
  (forall p, ledger_backed (snd (add_package p st))) /\
  ledger_backed (snd (process_package st)) /\
  (forall t pkgs, ledger_backed (snd (load_fragile t pkgs st))) /\
  (forall count, ledger_backed (snd (rollback count st))) /\
  (db_faults st = [] ->
   Forall (fun e : ref * Package => 0 <= size e.2) (stack_loading st) ->
   forall count t tr,
     heap st !! t = Some tr ->
     let popped := take (turns count 0 (length (stack_loading st))) (stack_loading st) in
     heap (snd (rollback count st)) !! t =
     Some (mkTruck (mkUnit (capacity (truck_unit tr))
                           (used_space (truck_unit tr) - ledger_sum t popped))
                   (truck_id tr))).
Proof.
  split; [intros p; exact Hback |].
  split.
  { destruct (process_package_frame st) as [Hs Hh].
    by eapply ledger_backed_eq. }
  split; [intros t pkgs; by apply load_fragile_ledger |].
  split; [intros count; by apply rollback_ledger |].
  intros Hhealthy Hnn count t tr Ht popped. subst popped.
  rewrite (rollback_run count st Hhealthy). cbn [snd heap].
  apply release_all_exact; [| | exact Ht].
  - rewrite Forall_forall in Hnn |- *. intros e He. apply Hnn.
    eapply elem_of_sublist; [exact He |]. apply sublist_take.
  - intros t' tr' Ht'. specialize (Hback t' tr' Ht').
    pose proof (ledger_sum_take_le t' (turns count 0 (length (stack_loading st)))
                  (stack_loading st) Hnn). lia.
Qed.

Lemma X14_stack_is_backed_by_trucks_witness :
  ledger_backed st_loaded /\
  heap (snd (rollback (Some 2) st_loaded)) !! 0%nat =
    Some (mkTruck (mkUnit 40 5) "T101").
Proof.
  assert (ledger_backed (st_truck [])) as Hback0.
  { intros t tr Ht. unfold st_truck in Ht. simpl in Ht.
    apply lookup_singleton_Some in Ht as [<- <-]. simpl. lia. }
  destruct (X14_stack_is_backed_by_trucks (st_truck []) Hback0) as (_ & _ & Hload & _).
  pose proof (Hload 0%nat [p1; p3; p5]) as Hback. fold st_loaded in Hback.
  split; [exact Hback |].
  destruct (X14_stack_is_backed_by_trucks st_loaded Hback) as (_ & _ & _ & _ & Hexact).
  assert (db_faults st_loaded = []) as Hf by (vm_compute; reflexivity).
  assert (Forall (fun e : ref * Package => 0 <= size e.2) (stack_loading st_loaded))
    as Hnn.
  { replace (stack_loading st_loaded) with [(0%nat, p5); (0%nat, p3); (0%nat, p1)]
      by (vm_compute; reflexivity).
    repeat constructor; simpl; lia. }
  assert (heap st_loaded !! 0%nat = Some (mkTruck (mkUnit 40 22) "T101")) as Ht
    by (vm_compute; reflexivity).
  etransitivity; [exact (Hexact Hf Hnn (Some 2) 0%nat _ Ht) |].
  vm_compute. reflexivity.
Defined.

(** ** The loader on any start *)






(** ** Which part of the memory an operation touches *)

Lemma load_each_frame (t : ref) (s : list Package) :
  forall st : State,
    let st' := snd (load_each t s st) in
    bin_inventory st' = bin_inventory st /\
    queue_incoming st' = queue_incoming st /\
    (forall t', t' <> t -> heap st' !! t' = heap st !! t').
Proof.
  induction s as [|p s IH]; intros st st'; subst st'; simpl; [by repeat split |].
  unfold truck_occupy_space. run_m.
  destruct (heap st !! t) as [tr|]; simpl; [| by repeat split].
  destruct (occupy_space (truck_unit tr) (size p)) as [u|e]; simpl;
    [| by repeat split].
  assert (forall t', t' <> t ->
                     <[t := mkTruck u (truck_id tr)]> (heap st) !! t' = heap st !! t')
    as Hother by (intros t' Hne; by rewrite lookup_insert_ne).
  destruct (db_faults st) as [|[] fs]; simpl; try (by repeat split).
  all: match goal with |- context [load_each _ _ ?st1] =>
         destruct (IH st1) as (Hb & Hq & Hh); rewrite Hb, Hq;
         split; [reflexivity |]; split; [reflexivity |];
         intros t' Hne; rewrite (Hh t' Hne); by apply Hother
       end.
Qed.

Lemma rollback_loop_frame (stack : list (ref * Package)) (count : option Z) :
  forall (removed : Z) (st : State),
    let st' := snd (rollback_loop stack count removed st) in
    bin_inventory st' = bin_inventory st /\ queue_incoming st' = queue_incoming st.
Proof.
  induction stack as [|[t pkg] stack IH]; intros removed st st'; subst st'; simpl;
    [by split |].
  destruct (match count with None => true | Some c => removed <? c end); [| by split].
  unfold truck_free_space. run_m.
  destruct (db_faults st) as [|[] fs]; simpl; try (by split).
  all: match goal with |- context [rollback_loop _ _ _ ?st1] =>
         destruct (IH (removed + 1) st1) as (Hb & Hq); by rewrite Hb, Hq
       end.
Qed.

(** X16: each operation touches its own part of the memory, whatever
    the store does.  [process_package] changes neither the loading
    stack nor any truck, so a placement into a bin is never recorded
    for undoing; [rollback] changes neither the bins nor the queue, so
    it never gives space back to a bin; [load_fragile] changes neither
    the bins nor the queue nor any truck other than the one it is given.
    With queued packages of non-negative size no bin ever loses used
    space in a placement. *)
Theorem X16_operations_touch_their_own_part (st : State) :
  (stack_loading (snd (process_package st)) = stack_loading st /\
   heap (snd (process_package st)) = heap st) /\
  (forall count,
      bin_inventory (snd (rollback count st)) = bin_inventory st /\
      queue_incoming (snd (rollback count st)) = queue_incoming st) /\
  (forall t pkgs,
      bin_inventory (snd (load_fragile t pkgs st)) = bin_inventory st /\
      queue_incoming (snd (load_fragile t pkgs st)) = queue_incoming st /\
      forall t', t' <> t -> heap (snd (load_fragile t pkgs st)) !! t' = heap st !! t') /\
  (Forall (fun p => 0 <= size p) (queue_incoming st) ->
   forall (i : nat) (b : StorageBin),
     bin_inventory st !! i = Some b ->
     exists b', bin_inventory (snd (process_package st)) !! i = Some b' /\
                bin_used b <= bin_used b').
Proof.
  split; [apply process_package_frame |]. split; [| split].
  - intros count. unfold rollback. cbv beta iota delta [try_except bind get].
    destruct (rollback_loop_frame (stack_loading st) count 0 st) as [Hb Hq].
    destruct (rollback_loop (stack_loading st) count 0 st) as [[[]|e] st1]; simpl in *.
    + run_m. case_faults; by split.
    + by split.
  - intros t pkgs. unfold load_fragile, truck_remaining_space.
    cbv beta iota delta [bind get lift ret raise].
    destruct (heap st !! t) as [tr|]; [| by repeat split].
    rewrite try_load_0.
    destruct (try_load_from _ _ _) as [[] chosen]; simpl; [| by repeat split].
    destruct (load_each_frame t chosen st) as (Hb & Hq & Hh).
    run_m. destruct (load_each t chosen st) as [[[]|e] st1]; simpl in *.
    + case_faults; by repeat split.
    + by repeat split.
  - intros Hnn i b Hb.
    destruct (queue_incoming st) as [|pkg q] eqn:Hq.
    { rewrite (process_package_empty st Hq). exists b. split; [exact Hb | lia]. }
    apply Forall_cons in Hnn as [Hp _].
    destruct (process_package_cases st pkg q Hq) as [_ Hcases].
    destruct Hcases as [(_ & Hm & _) | (idx & b0 & _ & Hidx & Hb0 & _ & Hcases)].
    + unfold memory in Hm. injection Hm as -> _ _ _. exists b. split; [exact Hb | lia].
    + destruct Hcases as [(_ & Hm & _) | (_ & Hm & _)];
        unfold memory in Hm; injection Hm as -> _ _ _.
      * exists b. split; [exact Hb | lia].
      * unfold bins_after_reserve. destruct (decide (i = Z.to_nat idx)) as [-> | Hne].
        -- eexists. split; [apply list_lookup_insert_eq; by eapply lookup_lt_Some |].
           assert (b0 = b) as -> by congruence. unfold bin_used at 2. simpl. lia.
        -- exists b. rewrite list_lookup_insert_ne by auto. split; [exact Hb | lia].
Qed.

Lemma X16_operations_touch_their_own_part_witness :
  exists b', bin_inventory (snd (process_package
                                   (mkState demo_bins [p1] [] ∅ demo [] [] []))) !! 0%nat
             = Some b' /\ 0 <= bin_used b'.
Proof.
  destruct (X16_operations_touch_their_own_part
              (mkState demo_bins [p1] [] ∅ demo [] [] [])) as (_ & _ & _ & Hmono).
  apply (Hmono ltac:(repeat constructor; simpl; lia) 0%nat (new_bin 1 10 "A1")).
  reflexivity.
Defined.

(** ** A fault of the store during rollback *)

(** X17: a fault of the store does not undo what [rollback] has already
    done in memory.  When the stack is not empty, the count allows at
    least one pop and the first write of a [ROLLBACK] row faults,
    [rollback] still returns normally: the newest entry is gone from
    the stack and its size has been freed on its truck, the loop has
    stopped there, and the log has gained nothing (pending rows are
    dropped). *)
Theorem X17_rollback_fault_keeps_the_pop
  (st : State) (t : ref) (pkg : Package) (stack : list (ref * Package))
  (count : option Z) (fs : list bool)
  (Hstack : stack_loading st = (t, pkg) :: stack)
  (Hcount : match count with None => True | Some c => 0 < c end)
  (Hfault : db_faults st = true :: fs) :
  rollback count st =
  (Ok tt,
   mkState (bin_inventory st) (queue_incoming st) stack
           (release_entry (heap st) (t, pkg))
           (bin_configuration st) (shipment_logs st) [] fs).
Proof.
  unfold rollback. cbv beta iota delta [try_except bind get]. rewrite Hstack.
  cbn [rollback_loop].
  assert (match count with None => true | Some c => 0 <? c end = true) as ->.
  { destruct count as [c|]; [by apply Z.ltb_lt | reflexivity]. }
  unfold truck_free_space. run_m. rewrite Hfault. reflexivity.
Qed.

Lemma X17_rollback_fault_keeps_the_pop_witness :
  stack_loading
    (snd (rollback (Some 1)
            (mkState [] [] [(0%nat, p5); (0%nat, p3)] {[0%nat := mkTruck (mkUnit 40 17) "T101"]}
                     [] [] [] [true]))) = [(0%nat, p3)].
Proof.
  rewrite (X17_rollback_fault_keeps_the_pop
             (mkState [] [] [(0%nat, p5); (0%nat, p3)]
                      {[0%nat := mkTruck (mkUnit 40 17) "T101"]} [] [] [] [true])
             0%nat p5 [(0%nat, p3)] (Some 1) []); [reflexivity | reflexivity | | reflexivity].
  simpl. lia.
Defined.
